(** * kubernetes-prometheus-exporter: the scrape, aggregate and publish pipeline

    A shallow embedding of [kubernetes-prometheus-exporter.py] and the
    properties of its job cache, its label grouping and its duration
    histogram.

    Conventions of the embedding.
    - A Python [dict] whose iteration order is observable (the job cache,
      the label groups, the bucket counters) is an insertion-ordered
      association list, module [PyDict].  The label set of a job, which the
      program only tests for membership and indexes, is a [gmap].
    - A [datetime] is the number of microseconds since the epoch and a
      [timedelta] a number of microseconds, both in [Z].
    - A Python [float] is the rational that it denotes, and every float
      operation rounds its exact result to the nearest binary64 value, ties
      to even, [round53].  The exponent range of binary64 is not modelled:
      the durations of the program are quotients of microseconds within
      the range of [datetime], far from overflow and from subnormals.
    - Module-level mutable state ([JOB_CACHE], [metrics]) is threaded
      explicitly through a state-and-exception monad [Py]; a raised Python
      exception is the [Raise] outcome and leaves the state as mutated so
      far.
    - A generator is the list of the values it yields together with the
      way it ends, [gen]. *)

From Stdlib Require Import ZArith QArith Lia.
From Stdlib Require Qcanon.
From stdpp Require Import base option list sorting gmap strings pretty.

Local Open Scope Z_scope.

(** ** Insertion-ordered dictionaries *)

Module PyDict.
Section dict.
Context {K V : Type} `{EqDecision K}.

(** [d.get(k)]: [None] stands for a missing key. *)
Fixpoint get (d : list (K * V)) (k : K) : option V :=
  match d with
  | [] => None
  | (k', v) :: d' => if decide (k' = k) then Some v else get d' k
  end.

(** [k in d] *)
Definition contains (d : list (K * V)) (k : K) : bool :=
  match get d k with Some _ => true | None => false end.

(** [d[k] = v]: an existing key keeps its position, a new key goes last. *)
Fixpoint set (d : list (K * V)) (k : K) (v : V) : list (K * V) :=
  match d with
  | [] => [(k, v)]
  | (k', v') :: d' =>
      if decide (k' = k) then (k', v) :: d' else (k', v') :: set d' k v
  end.

(** [d.keys()], [d.values()], [d.items()], [len(d)] *)
Definition keys (d : list (K * V)) : list K := fst <$> d.
Definition values (d : list (K * V)) : list V := snd <$> d.
Definition items (d : list (K * V)) : list (K * V) := d.
Definition len (d : list (K * V)) : nat := length d.

End dict.
End PyDict.

(** ** Exceptions, results and the state monad of module-level globals *)

(** [ClientError] stands for an exception of the cluster API client that
    is not an [ApiException], such as the [MaxRetryError] that urllib3
    raises when the server cannot be reached. *)
Inductive exn := TypeError | KeyError | ClientError.

Inductive result (A : Type) :=
| Ok (a : A)
| Raise (e : exn).
Arguments Ok {A} a.
Arguments Raise {A} e.

Definition Py (S A : Type) : Type := S → S * result A.

#[global] Instance py_ret {S} : MRet (Py S) := λ A a s, (s, Ok a).
#[global] Instance py_bind {S} : MBind (Py S) := λ A B k m s,
  match m s with
  | (s', Ok a) => k a s'
  | (s', Raise e) => (s', Raise e)
  end.
Definition py_raise {S A} (e : exn) : Py S A := λ s, (s, Raise e).
Definition py_get {S} : Py S S := λ s, (s, Ok s).
Definition py_modify {S} (f : S → S) : Py S unit := λ s, (f s, Ok tt).

(** [for x in xs: body(x)] *)
Fixpoint py_for {S A} (xs : list A) (body : A → Py S unit) : Py S unit :=
  match xs with
  | [] => mret tt
  | x :: xs' => body x ;; py_for xs' body
  end.

(** ** The job records of the cluster API client *)

(** Microseconds since the epoch. *)
Abbreviation datetime := Z (only parsing).

Record V1ObjectMeta := {
  name : string;
  creation_timestamp : datetime;
  labels : option (gmap string string);   (* [None]: the field is null *)
}.

Record V1JobStatus := {
  active : option Z;
  succeeded : option Z;
  start_time : option datetime;
  completion_time : option datetime;
}.

Record V1Job := {
  metadata : V1ObjectMeta;
  status : V1JobStatus;
}.

(** [x == n] and [x != n] for a nullable integer field [x]. *)
Definition py_eq_int (x : option Z) (n : Z) : bool :=
  match x with Some m => m =? n | None => false end.
Definition py_ne_int (x : option Z) (n : Z) : bool := negb (py_eq_int x n).

Definition is_none {A} (x : option A) : bool :=
  match x with Some _ => false | None => true end.

(** ** Exposed metric families

    A family records the arguments of its constructor and, in order, the
    arguments of every [add_metric] call. *)

Record CounterMetricFamily := {
  c_name : string;
  c_documentation : string;
  c_labels : list string;
  c_samples : list (list string * Z);
}.

Record HistogramMetricFamily := {
  h_name : string;
  h_documentation : string;
  h_labels : list string;
  h_samples : list (list string * list (string * Z) * Q);
}.

Inductive MetricFamily :=
| Counter (f : CounterMetricFamily)
| Histogram (f : HistogramMetricFamily).

Definition counter_add_metric (f : CounterMetricFamily)
    (labels : list string) (value : Z) : CounterMetricFamily :=
  {| c_name := c_name f; c_documentation := c_documentation f;
     c_labels := c_labels f;
     c_samples := c_samples f ++ [(labels, value)] |}.

Definition histogram_add_metric (f : HistogramMetricFamily)
    (labels : list string) (buckets : list (string * Z)) (sum_value : Q)
    : HistogramMetricFamily :=
  {| h_name := h_name f; h_documentation := h_documentation f;
     h_labels := h_labels f;
     h_samples := h_samples f ++ [(labels, buckets, sum_value)] |}.

(** ** Generators *)

(** The values yielded, and how the generator ends: by returning or by
    raising. *)
Definition gen (A : Type) : Type := (list A * result unit)%type.

(** [for x in g: family = add(family, x)], inside the state monad. *)
Definition py_for_gen {S A F} (g : gen A) (add : F → A → F) (family : F)
    : Py S F :=
  match g.2 with
  | Ok _ => mret (fold_left add g.1 family)
  | Raise e => py_raise e
  end.

(** ** Histogram buckets *)

(** An element of [DURATION_BUCKETS + ["+Inf"]]: an integer number of
    seconds, or the string ["+Inf"]. *)
Inductive bucket :=
| Seconds (n : Z)
| Inf.

#[global] Instance bucket_eq_dec : EqDecision bucket.
Proof. solve_decision. Defined.

Definition DURATION_BUCKETS : list bucket :=
  [ Seconds 10; Seconds 30; Seconds 60; Seconds 180; Seconds 480;
    Seconds 1200; Seconds 3600; Seconds 7200 ].

(** [str(bucket)] *)
Definition str (b : bucket) : string :=
  match b with
  | Seconds n => pretty n
  | Inf => "+Inf"
  end.

#[global] Instance Qlt_decision (x y : Q) : Decision (x < y)%Q.
Proof. unfold Qlt. apply _. Defined.

(** [duration < float(bucket)]; [float("+Inf")] is above every duration. *)
Definition lt_float (duration : Q) (b : bucket) : bool :=
  match b with
  | Seconds n => bool_decide (duration < inject_Z n)%Q
  | Inf => true
  end.

(** ** Binary64 arithmetic *)

(** The quotient [num / den] of a non-negative by a positive integer,
    rounded to the nearest integer, ties to even. *)
Definition round_half_even (num den : Z) : Z :=
  let q := num / den in
  let r := num mod den in
  if 2 * r <? den then q
  else if den <? 2 * r then q + 1
  else if Z.even q then q else q + 1.

(** Numerator and denominator of [a / (d * 2 ^ e)]. *)
Definition scale (a d e : Z) : Z * Z :=
  if 0 <=? e then (a, d * 2 ^ e) else (a * 2 ^ (- e), d).

(** The nearest rational [m * 2 ^ e] with a significand [m] of 53 bits,
    ties to even, in lowest terms: [e] is chosen with
    [2 ^ 52 <= |x| / 2 ^ e < 2 ^ 53]. *)
Definition round53 (x : Q) : Q :=
  let n := Qnum x in
  let d := Z.pos (Qden x) in
  if n =? 0 then 0%Q
  else
    let a := Z.abs n in
    let e0 := Z.log2 a - Z.log2 d - 53 in
    let e := if 2 ^ 53 * snd (scale a d e0) <=? fst (scale a d e0)
             then e0 + 1 else e0 in
    let m :=
      Z.sgn n * round_half_even (fst (scale a d e)) (snd (scale a d e)) in
    Qred (if 0 <=? e then inject_Z (m * 2 ^ e)
          else Qmake m (Z.to_pos (2 ^ (- e)))).

(** [x + y] on floats. *)
Definition fadd (x y : Q) : Q := round53 (x + y).

(** [timedelta.total_seconds()] of a difference in microseconds: the
    quotient by [10 ** 6], correctly rounded. *)
Definition total_seconds (td : Z) : Q := round53 (Qmake td 1000000).

(** [completion_time - start_time]: a [TypeError] when either is null. *)
Definition sub_datetime (a b : option datetime) : result Z :=
  match a, b with
  | Some x, Some y => Ok (x - y)
  | _, _ => Raise TypeError
  end.

(** The outcome of [batch_v1_api.list_namespaced_job(namespace)]: the
    response, whose [items] are read, the client's [ApiException], or any
    other exception of the client. *)
Inductive list_response :=
| JobList (items : list V1Job)
| ApiException
| OtherError.

(** The module-level mutable globals. *)
Record Globals := {
  JOB_CACHE : list (string * V1Job);
  metrics : gmap string MetricFamily;
}.

(** ** The program *)

Section exporter.

(** The module-level configuration: [START] is assigned once, before the
    first scrape; [NAMESPACE] and [JOB_LABEL] come from the environment. *)
Variable START : datetime.
Variable NAMESPACE : string.
Variable JOB_LABEL : string.

(** [JOB_CACHE[name] = job] *)
Definition cache_store (key : string) (job : V1Job) (g : Globals) : Globals :=
  {| JOB_CACHE := PyDict.set (JOB_CACHE g) key job; metrics := metrics g |}.

(** [cache_job], lines 61-67.  [JOB_LABEL not in job.metadata.labels]
    raises a [TypeError] when the labels are null. *)
Definition cache_job (job : V1Job) : Py Globals unit :=
  g ← py_get;
  if negb (PyDict.contains (JOB_CACHE g) (name (metadata job))) then
    if py_eq_int (active (status job)) 1 then mret tt
    else
      match labels (metadata job) with
      | None => py_raise TypeError
      | Some job_labels =>
          if is_none (job_labels !! JOB_LABEL) then mret tt
          else py_modify (cache_store (name (metadata job)) job)
      end
  else mret tt.

(** [retrieve_jobs], lines 45-58.  Only [ApiException] is caught: the
    fetched [data] is then the empty list.  Any other exception of the list
    call leaves the function. *)
Definition retrieve_jobs (namespace : string)
    (batch_v1_api : string → list_response) : Py Globals (list V1Job) :=
  data ← match batch_v1_api namespace with
         | JobList items => mret items
         | ApiException => mret []
         | OtherError => py_raise ClientError
         end;
  py_for data cache_job;;
  g ← py_get;
  mret (filter (λ job, ¬ (creation_timestamp (metadata job) < START))
               (PyDict.values (JOB_CACHE g))).

(** [job.metadata.labels[JOB_LABEL]]: a [TypeError] on null labels, a
    [KeyError] on a missing key. *)
Definition app_label_of (job : V1Job) : result string :=
  match labels (metadata job) with
  | None => Raise TypeError
  | Some job_labels =>
      match job_labels !! JOB_LABEL with
      | Some app_label => Ok app_label
      | None => Raise KeyError
      end
  end.

(** The loop of [get_app_labels], lines 72-76, on the dictionary built so
    far. *)
Fixpoint get_app_labels_from (app_labels : list (string * list V1Job))
    (jobs : list V1Job) : result (list (string * list V1Job)) :=
  match jobs with
  | [] => Ok app_labels
  | job :: jobs' =>
      match app_label_of job with
      | Raise e => Raise e
      | Ok app_label =>
          let app_labels1 :=
            if negb (PyDict.contains app_labels app_label)
            then PyDict.set app_labels app_label []
            else app_labels in
          match PyDict.get app_labels1 app_label with
          | None => Raise KeyError
          | Some data =>
              get_app_labels_from
                (PyDict.set app_labels1 app_label (data ++ [job])) jobs'
          end
      end
  end.

(** [get_app_labels], lines 70-77. *)
Definition get_app_labels (jobs : list V1Job)
    : result (list (string * list V1Job)) :=
  get_app_labels_from [] jobs.

(** [kubernetes_jobs_total], lines 80-83. *)
Definition kubernetes_jobs_total (jobs : list V1Job)
    : gen (Z * list string) :=
  match get_app_labels jobs with
  | Raise e => ([], Raise e)
  | Ok app_labels =>
      ((λ '(label, data), (Z.of_nat (length data), [label]))
         <$> PyDict.items app_labels, Ok tt)
  end.

(** [find_applicable_buckets], lines 86-90: a generator that cannot raise,
    given as the list it yields. *)
Definition find_applicable_buckets (duration : Q) : list bucket :=
  let buckets := DURATION_BUCKETS ++ [Inf] in
  filter (λ b, lt_float duration b = true) buckets.

(** [buckets_dict[bucket] += 1] *)
Definition increment (buckets_dict : list (bucket * Z)) (b : bucket)
    : result (list (bucket * Z)) :=
  match PyDict.get buckets_dict b with
  | None => Raise KeyError
  | Some n => Ok (PyDict.set buckets_dict b (n + 1))
  end.

(** [for bucket in find_applicable_buckets(duration): buckets_dict[bucket] += 1] *)
Fixpoint increment_all (buckets_dict : list (bucket * Z))
    (applicable : list bucket) : result (list (bucket * Z)) :=
  match applicable with
  | [] => Ok buckets_dict
  | b :: rest =>
      match increment buckets_dict b with
      | Raise e => Raise e
      | Ok buckets_dict' => increment_all buckets_dict' rest
      end
  end.

(** The loop over the jobs of one label group, lines 103-109. *)
Fixpoint observe_jobs (buckets_dict : list (bucket * Z)) (durations : Q)
    (jobs : list V1Job) : result (list (bucket * Z) * Q) :=
  match jobs with
  | [] => Ok (buckets_dict, durations)
  | job :: jobs' =>
      match sub_datetime (completion_time (status job))
                         (start_time (status job)) with
      | Raise e => Raise e
      | Ok td =>
          let duration := total_seconds td in
          let durations := fadd durations duration in
          match increment_all buckets_dict
                  (find_applicable_buckets duration) with
          | Raise e => Raise e
          | Ok buckets_dict' => observe_jobs buckets_dict' durations jobs'
          end
      end
  end.

(** [buckets.append((str(bucket), buckets_dict[bucket]))], lines 110-112. *)
Fixpoint read_buckets (buckets_dict : list (bucket * Z))
    (duration_buckets : list bucket) : result (list (string * Z)) :=
  match duration_buckets with
  | [] => Ok []
  | b :: rest =>
      match PyDict.get buckets_dict b with
      | None => Raise KeyError
      | Some n =>
          match read_buckets buckets_dict rest with
          | Raise e => Raise e
          | Ok buckets => Ok ((str b, n) :: buckets)
          end
      end
  end.

(** The body of the loop over the label groups, lines 97-113: the value
    yielded for one group. *)
Definition histogram_of_group (duration_buckets : list bucket)
    (app : string) (jobs : list V1Job)
    : result (list (string * Z) * Q * list string) :=
  let buckets_dict :=
    fold_left (λ d b, PyDict.set d b 0) duration_buckets [] in
  match observe_jobs buckets_dict 0%Q jobs with
  | Raise e => Raise e
  | Ok (buckets_dict', durations) =>
      match read_buckets buckets_dict' duration_buckets with
      | Raise e => Raise e
      | Ok buckets => Ok (buckets, durations, [app])
      end
  end.

(** The loop over the label groups: what was yielded before a raise stays
    yielded. *)
Fixpoint histogram_of_groups (duration_buckets : list bucket)
    (groups : list (string * list V1Job))
    : gen (list (string * Z) * Q * list string) :=
  match groups with
  | [] => ([], Ok tt)
  | (app, jobs) :: rest =>
      match histogram_of_group duration_buckets app jobs with
      | Raise e => ([], Raise e)
      | Ok y =>
          let '(ys, r) := histogram_of_groups duration_buckets rest in
          (y :: ys, r)
      end
  end.

(** [kubernetes_job_duration_seconds], lines 93-113. *)
Definition kubernetes_job_duration_seconds (app_jobs : list V1Job)
    : gen (list (string * Z) * Q * list string) :=
  let duration_buckets := DURATION_BUCKETS ++ [Inf] in
  match get_app_labels app_jobs with
  | Raise e => ([], Raise e)
  | Ok app_labels =>
      histogram_of_groups duration_buckets (PyDict.items app_labels)
  end.

(** [metrics.update({...})], lines 153-159. *)
Definition publish (total errors : CounterMetricFamily)
    (durations : HistogramMetricFamily) (g : Globals) : Globals :=
  {| JOB_CACHE := JOB_CACHE g;
     metrics :=
       <["kubernetes_job_duration_seconds" := Histogram durations]>
         (<["kubernetes_job_errors_total" := Counter errors]>
            (<["kubernetes_jobs_total" := Counter total]> (metrics g))) |}.

(** [scrape], lines 116-159, from the client [batch_v1_api] that lines
    117-121 construct. *)
Definition scrape (batch_v1_api : string → list_response)
    : Py Globals unit :=
  jobs ← retrieve_jobs NAMESPACE batch_v1_api;
  kubernetes_jobs_total_family ←
    py_for_gen (kubernetes_jobs_total jobs)
      (λ family '(value, labels), counter_add_metric family labels value)
      {| c_name := "kubernetes_jobs_total";
         c_documentation := "Count of all kubernetes jobs";
         c_labels := [JOB_LABEL]; c_samples := [] |};
  let error_jobs :=
    filter (λ job, py_ne_int (succeeded (status job)) 1 = true) jobs in
  kubernetes_job_errors_total_family ←
    py_for_gen (kubernetes_jobs_total error_jobs)
      (λ family '(value, labels), counter_add_metric family labels value)
      {| c_name := "kubernetes_job_errors_total";
         c_documentation := "Count of all kubernetes job errors";
         c_labels := [JOB_LABEL]; c_samples := [] |};
  let succeeded_jobs :=
    filter (λ job, py_eq_int (succeeded (status job)) 1 = true) jobs in
  kubernetes_job_duration_seconds_family ←
    py_for_gen (kubernetes_job_duration_seconds succeeded_jobs)
      (λ family '(buckets, duration_sum, labels),
         histogram_add_metric family labels buckets duration_sum)
      {| h_name := "kubernetes_job_duration_seconds";
         h_documentation := "Histogram of kubernetes job durations";
         h_labels := [JOB_LABEL]; h_samples := [] |};
  py_modify (publish kubernetes_jobs_total_family
               kubernetes_job_errors_total_family
               kubernetes_job_duration_seconds_family).

End exporter.

(** ** Vocabulary of the properties *)

(** The job carries the classification label [key]. *)
Definition has_label (key : string) (job : V1Job) : Prop :=
  ∃ job_labels, labels (metadata job) = Some job_labels
                ∧ is_Some (job_labels !! key).

(** The three entry criteria of the cache: the identity is absent, the job
    is not active, the classification label is present. *)
Definition cacheable (key : string) (job : V1Job)
    (cache : list (string * V1Job)) : Prop :=
  PyDict.get cache (name (metadata job)) = None
  ∧ active (status job) ≠ Some 1
  ∧ has_label key job.

(** Every cached record carries the classification label. *)
Definition cache_labelled (key : string) (cache : list (string * V1Job))
    : Prop :=
  ∀ job, job ∈ PyDict.values cache → has_label key job.

(** A job record, field by field. *)
Definition mk_job (n : string) (created : datetime)
    (job_labels : option (gmap string string)) (act succ : option Z)
    (started completed : option datetime) : V1Job :=
  {| metadata := {| name := n; creation_timestamp := created;
                    labels := job_labels |};
     status := {| active := act; succeeded := succ;
                  start_time := started; completion_time := completed |} |}.

(** The state of a freshly started process. *)
Definition initial : Globals := {| JOB_CACHE := []; metrics := ∅ |}.

(** The three families that [scrape] builds from the eligible jobs. *)
Definition jobs_total_family (key : string) (jobs : list V1Job)
    : CounterMetricFamily :=
  fold_left (λ family '(value, labels), counter_add_metric family labels value)
    (kubernetes_jobs_total key jobs).1
    {| c_name := "kubernetes_jobs_total";
       c_documentation := "Count of all kubernetes jobs";
       c_labels := [key]; c_samples := [] |}.

Definition job_errors_total_family (key : string) (jobs : list V1Job)
    : CounterMetricFamily :=
  fold_left (λ family '(value, labels), counter_add_metric family labels value)
    (kubernetes_jobs_total key
       (filter (λ job, py_ne_int (succeeded (status job)) 1 = true) jobs)).1
    {| c_name := "kubernetes_job_errors_total";
       c_documentation := "Count of all kubernetes job errors";
       c_labels := [key]; c_samples := [] |}.

Definition job_duration_seconds_family (key : string) (jobs : list V1Job)
    : HistogramMetricFamily :=
  fold_left (λ family '(buckets, duration_sum, labels),
               histogram_add_metric family labels buckets duration_sum)
    (kubernetes_job_duration_seconds key
       (filter (λ job, py_eq_int (succeeded (status job)) 1 = true) jobs)).1
    {| h_name := "kubernetes_job_duration_seconds";
       h_documentation := "Histogram of kubernetes job durations";
       h_labels := [key]; h_samples := [] |}.

(** Sample records: label sets, and jobs named after what they show.
    Times are in microseconds. *)
Definition app_foo : gmap string string := {[ "app" := "foo" ]}.
Definition app_bar : gmap string string := {[ "app" := "bar" ]}.
Definition team_x : gmap string string := {[ "team" := "x" ]}.

Definition job_5s : V1Job :=
  mk_job "job-5s" 2000 (Some app_foo) None (Some 1)
    (Some 3000) (Some 5003000).
Definition job_45s : V1Job :=
  mk_job "job-45s" 2000 (Some app_foo) None (Some 1)
    (Some 3000) (Some 45003000).
Definition job_400s : V1Job :=
  mk_job "job-400s" 2000 (Some app_foo) None (Some 1)
    (Some 3000) (Some 400003000).
(** A later view of [job_5s]: same name, other status. *)
Definition job_5s_later : V1Job :=
  mk_job "job-5s" 2000 (Some app_bar) (Some 1) None (Some 9000) None.
Definition job_running : V1Job :=
  mk_job "job-running" 2000 (Some app_foo) (Some 1) None (Some 3000) None.
Definition job_unlabelled : V1Job :=
  mk_job "job-unlabelled" 2000 (Some team_x) None (Some 1)
    (Some 3000) (Some 4000).
Definition job_null_labels : V1Job :=
  mk_job "job-null-labels" 2000 None None (Some 1) (Some 3000) (Some 4000).
Definition job_old : V1Job :=
  mk_job "job-old" 500 (Some app_foo) None (Some 1)
    (Some 600) (Some 700).
(** Marked succeeded, yet without a completion time. *)
Definition job_no_completion : V1Job :=
  mk_job "job-no-completion" 2000 (Some app_bar) None (Some 1)
    (Some 3000) None.
(** Completed before it started. *)
Definition job_negative : V1Job :=
  mk_job "job-negative" 2000 (Some app_foo) None (Some 1)
    (Some 9000000) (Some 2000000).

(** The jobs fetched by one call of the client. *)
Definition fetched (api : string → list_response) (namespace : string)
    : list V1Job :=
  match api namespace with
  | JobList items => items
  | ApiException => []
  | OtherError => []
  end.

(** The eligible jobs of a cache: those not created before [since]. *)
Definition eligible (since : datetime) (cache : list (string * V1Job))
    : list V1Job :=
  filter (λ job, ¬ (creation_timestamp (metadata job) < since))
         (PyDict.values cache).

#[global] Instance exn_eq_dec : EqDecision exn.
Proof. solve_decision. Defined.

#[global] Instance result_eq_dec {A} `{EqDecision A} : EqDecision (result A).
Proof. solve_decision. Defined.

(** The label group of [app]: the jobs whose classification label has the
    value [app], in the order of the input. *)
Definition group (key app : string) (jobs : list V1Job) : list V1Job :=
  filter (λ job, app_label_of key job = Ok app) jobs.

(** [completion_time - start_time] of a job, in seconds. *)
Definition job_duration (job : V1Job) : result Q :=
  match sub_datetime (completion_time (status job))
                     (start_time (status job)) with
  | Ok td => Ok (total_seconds td)
  | Raise e => Raise e
  end.

(** The job has a start time [s] and a completion time [c], and [q] is
    the float [(c - s).total_seconds()]. *)
Definition lasts (job : V1Job) (q : Q) : Prop :=
  ∃ c s, completion_time (status job) = Some c
         ∧ start_time (status job) = Some s
         ∧ q = total_seconds (c - s).

(** The arithmetic sum of a list of durations. *)
Definition Qsum (ds : list Q) : Q := foldr Qplus 0%Q ds.

(** How many of the durations [ds] are below the boundary [b]. *)
Definition count_below (b : bucket) (ds : list Q) : Z :=
  Z.of_nat (length (filter (λ q, lt_float q b = true) ds)).

(** The order of the boundaries: numeric, with ["+Inf"] on top. *)
Definition bucket_le (b1 b2 : bucket) : Prop :=
  match b1, b2 with
  | Seconds m, Seconds n => m ≤ n
  | _, Inf => True
  | Inf, Seconds _ => False
  end.

(** The duration is strictly below the boundary. *)
Definition below (duration : Q) (b : bucket) : Prop :=
  match b with
  | Seconds n => (duration < inject_Z n)%Q
  | Inf => True
  end.

#[global] Instance below_decision (duration : Q) (b : bucket)
  : Decision (below duration b).
Proof. destruct b; simpl; apply _. Defined.

(** The job has both timestamps and its completion does not precede its
    start. *)
Definition has_valid_duration (job : V1Job) : Prop :=
  match completion_time (status job), start_time (status job) with
  | Some c, Some s => s ≤ c
  | _, _ => False
  end.

#[global] Instance has_valid_duration_decision (job : V1Job)
  : Decision (has_valid_duration job).
Proof.
  unfold has_valid_duration.
  destruct (completion_time (status job)), (start_time (status job));
    apply _.
Defined.

(** The aggregation as the specification words it: a job without a valid
    duration is skipped, and the generator runs to its end with the
    histogram of the other jobs. *)
Definition skips_invalid_durations (key : string) (jobs : list V1Job)
    : Prop :=
  kubernetes_job_duration_seconds key jobs
  = kubernetes_job_duration_seconds key (filter has_valid_duration jobs)
  ∧ (kubernetes_job_duration_seconds key jobs).2 = Ok tt.

(** The order of Python strings: code point by code point, which on UTF-8
    strings is the byte-wise order [String.leb]. *)
Definition string_le (a b : string) : Prop := String.leb a b = true.

#[global] Instance string_le_decision (a b : string)
  : Decision (string_le a b).
Proof. unfold string_le. apply _. Defined.

(** [sorted(metrics)]: the keys in ascending order. *)
Definition sorted_keys (m : gmap string MetricFamily) : list string :=
  merge_sort string_le ((map_to_list m).*1).

(** The loop of [Expositor.collect], lines 167-168, on the keys still to
    visit; [metrics[key]] raises a [KeyError] on a missing key. *)
Fixpoint collect_keys (m : gmap string MetricFamily) (keys : list string)
    : gen MetricFamily :=
  match keys with
  | [] => ([], Ok tt)
  | key :: keys' =>
      match m !! key with
      | None => ([], Raise KeyError)
      | Some family =>
          let '(ys, r) := collect_keys m keys' in (family :: ys, r)
      end
  end.

(** [Expositor.collect], lines 165-168, reading the module-level
    [metrics]. *)
Definition collect (g : Globals) : gen MetricFamily :=
  collect_keys (metrics g) (sorted_keys (metrics g)).

(** The cycles of the main block, lines 181-186: the scrape at startup and
    the scrapes of the polling loop, for the client outcomes [apis] of as
    many cycles; an exception that leaves a cycle ends the process. *)
Definition main_loop (since : datetime) (namespace key : string)
    (apis : list (string → list_response)) : Py Globals unit :=
  py_for apis (scrape since namespace key).

(** The names under which [scrape] publishes. *)
Definition metric_names : list string :=
  [ "kubernetes_jobs_total"; "kubernetes_job_errors_total";
    "kubernetes_job_duration_seconds" ].

(** The shape of the cache: no name twice, every record under its own
    name, no record of a job that was active when it was stored. *)
Definition cache_well_formed (cache : list (string * V1Job)) : Prop :=
  NoDup (PyDict.keys cache)
  ∧ ∀ key job, (key, job) ∈ cache →
      name (metadata job) = key ∧ active (status job) ≠ Some 1.

(** The failed and the succeeded jobs of a cycle, lines 135 and 144. *)
Definition error_jobs (jobs : list V1Job) : list V1Job :=
  filter (λ job, py_ne_int (succeeded (status job)) 1 = true) jobs.
Definition succeeded_jobs (jobs : list V1Job) : list V1Job :=
  filter (λ job, py_eq_int (succeeded (status job)) 1 = true) jobs.


(** The number of jobs held by a grouping. *)
Definition group_sizes (groups : list (string * list V1Job)) : nat :=
  sum_list_with length (PyDict.values groups).


(** What a yielded histogram says about its label: the count of its last
    bucket, with the label list. *)
Definition observation_count (y : list (string * Z) * Q * list string)
    : Z * list string :=
  (default 0 (snd <$> last y.1.1), y.2).


(** The metrics hold nothing but what [scrape] publishes. *)
Definition published_names_only (g : Globals) : Prop :=
  ∀ key, is_Some (metrics g !! key) → key ∈ metric_names.


(** The count that a list of yielded pairs gives for the label [app]; zero
    when there is no pair for it. *)
Definition yielded_count (ys : list (Z * list string)) (app : string) : Z :=
  foldr Z.add 0 ((filter (λ y, y.2 = [app]) ys).*1).

(** The value of a counter family at the label [app]. *)
Definition counter_value (f : CounterMetricFamily) (app : string) : Z :=
  foldr Z.add 0 ((filter (λ sample, sample.1 = [app]) (c_samples f)).*2).

(** The number of observations of a histogram family at the label [app]:
    the count of the last bucket. *)
Definition histogram_count (f : HistogramMetricFamily) (app : string) : Z :=
  foldr Z.add 0
    ((λ sample, default 0 (snd <$> last sample.1.2))
       <$> filter (λ sample, sample.1.1 = [app]) (h_samples f)).


(** The float sum of a list of durations, accumulated from [0] in the
    order of the list, as lines 101 and 107 do. *)
Definition float_sum (ds : list Q) : Q := fold_left fadd ds 0%Q.

(** [td] microseconds in seconds, exactly. *)
Definition exact_seconds (td : Z) : Q := Qmake td 1000000.

(** The job has both timestamps, and they are [k] whole seconds apart. *)
Definition whole_seconds (job : V1Job) (k : Z) : Prop :=
  ∃ c s, completion_time (status job) = Some c
         ∧ start_time (status job) = Some s
         ∧ c - s = 1000000 * k.

(** Two succeeded jobs of a tenth and of two tenths of a second. *)
Definition job_100ms : V1Job :=
  mk_job "job-100ms" 2000 (Some app_foo) None (Some 1)
    (Some 3000) (Some 103000).
Definition job_200ms : V1Job :=
  mk_job "job-200ms" 2000 (Some app_foo) None (Some 1)
    (Some 3000) (Some 203000).


(** ** Facts about insertion-ordered dictionaries *)

Module PyDictFacts.
Section facts.
Context {K V : Type} `{EqDecision K}.
Implicit Types (d : list (K * V)) (k : K) (v : V).

Lemma contains_true d k : PyDict.contains d k = true ↔ is_Some (PyDict.get d k).
Proof.
  unfold PyDict.contains. destruct (PyDict.get d k) as [v|]; split; intros H.
  - by exists v.
  - done.
  - done.
  - by destruct H.
Qed.

Lemma contains_false d k : PyDict.contains d k = false ↔ PyDict.get d k = None.
Proof. unfold PyDict.contains. by destruct (PyDict.get d k). Qed.

Lemma get_set_eq d k v : PyDict.get (PyDict.set d k v) k = Some v.
Proof.
  induction d as [|[k' v'] d IH]; simpl.
  - by rewrite decide_True.
  - destruct (decide (k' = k)) as [->|Hne]; simpl.
    + by rewrite decide_True.
    + by rewrite decide_False.
Qed.

Lemma get_set_ne d k k' v : k ≠ k' → PyDict.get (PyDict.set d k v) k' = PyDict.get d k'.
Proof.
  intros Hne. induction d as [|[k0 v0] d IH]; simpl.
  - by rewrite decide_False.
  - destruct (decide (k0 = k)) as [->|Hk]; simpl.
    + by rewrite !decide_False.
    + destruct (decide (k0 = k')); done.
Qed.

(** Writing a key that is absent appends the entry. *)
Lemma set_fresh d k v : PyDict.get d k = None → PyDict.set d k v = d ++ [(k, v)].
Proof.
  induction d as [|[k' v'] d IH]; simpl; [done|].
  destruct (decide (k' = k)); [done|]. intros H. by rewrite IH.
Qed.

Lemma len_set_fresh d k v : PyDict.get d k = None → PyDict.len (PyDict.set d k v) = S (PyDict.len d).
Proof.
  intros H. unfold PyDict.len. rewrite set_fresh by done.
  rewrite length_app. simpl. lia.
Qed.

Lemma len_set_present d k v : is_Some (PyDict.get d k) → PyDict.len (PyDict.set d k v) = PyDict.len d.
Proof.
  unfold PyDict.len. induction d as [|[k' v'] d IH]; simpl.
  - by intros [? ?].
  - destruct (decide (k' = k)); simpl; [done|]. intros H. by rewrite IH.
Qed.

Lemma get_Some_values d k v : PyDict.get d k = Some v → v ∈ PyDict.values d.
Proof.
  unfold PyDict.values. induction d as [|[k' v'] d IH]; csimpl; [done|].
  destruct (decide (k' = k)).
  - intros [= ->]. apply elem_of_cons. by left.
  - intros H. apply elem_of_cons. right. by apply IH.
Qed.

Lemma keys_set_present d k v :
  is_Some (PyDict.get d k) → PyDict.keys (PyDict.set d k v) = PyDict.keys d.
Proof.
  unfold PyDict.keys. induction d as [|[k' v'] d IH]; csimpl.
  - by intros [? ?].
  - destruct (decide (k' = k)); csimpl; [done|]. intros H. by rewrite IH.
Qed.

Lemma elem_of_values_set d k v x :
  x ∈ PyDict.values (PyDict.set d k v) → x = v ∨ x ∈ PyDict.values d.
Proof.
  unfold PyDict.values. induction d as [|[k' v'] d IH]; csimpl.
  - intros Hx. apply list_elem_of_singleton in Hx. by left.
  - destruct (decide (k' = k)); csimpl; rewrite !elem_of_cons.
    + intros [->|Hx]; [by left|]. right. by right.
    + intros [->|Hx]; [right; by left|].
      destruct (IH Hx) as [->|Hx']; [by left|]. right. by right.
Qed.

Lemma get_None_keys d k : PyDict.get d k = None ↔ k ∉ PyDict.keys d.
Proof.
  unfold PyDict.keys. induction d as [|[k' v'] d IH]; csimpl.
  - split; [intros _; apply not_elem_of_nil | done].
  - rewrite not_elem_of_cons. destruct (decide (k' = k)) as [->|Hne].
    + split; [done | by intros [? _]].
    + rewrite IH. split; [by intros ? | by intros [_ ?]].
Qed.

End facts.
End PyDictFacts.

(** ** The job cache *)

Section cache.
Variable JOB_LABEL : string.
Implicit Types (job : V1Job) (g : Globals).

(** [cache_job] by cases, in the order of its tests. *)
Lemma cache_job_cases job g :
  cache_job JOB_LABEL job g =
    if PyDict.contains (JOB_CACHE g) (name (metadata job)) then (g, Ok tt)
    else if py_eq_int (active (status job)) 1 then (g, Ok tt)
    else match labels (metadata job) with
         | None => (g, Raise TypeError)
         | Some job_labels =>
             if is_none (job_labels !! JOB_LABEL) then (g, Ok tt)
             else (cache_store (name (metadata job)) job g, Ok tt)
         end.
Proof.
  unfold cache_job, mbind, py_bind, py_get. simpl.
  destruct (PyDict.contains _ _); simpl; [done|].
  destruct (py_eq_int _ _); [done|].
  destruct (labels _) as [job_labels|]; [|done].
  by destruct (is_none _).
Qed.

Lemma py_eq_int_true (x : option Z) (n : Z) :
  py_eq_int x n = true ↔ x = Some n.
Proof.
  destruct x as [m|]; simpl; [|done].
  rewrite Z.eqb_eq. split; [by intros -> | by intros [= ->]].
Qed.

Lemma py_eq_int_false (x : option Z) (n : Z) :
  py_eq_int x n = false ↔ x ≠ Some n.
Proof.
  rewrite <- py_eq_int_true. by destruct (py_eq_int x n).
Qed.

Lemma is_none_false {A} (x : option A) : is_none x = false ↔ is_Some x.
Proof.
  destruct x as [a|]; simpl; split; intros H.
  - by exists a.
  - done.
  - done.
  - by destruct H.
Qed.

(** The entry criteria decide which branch runs. *)
Lemma cache_job_cacheable job g :
  cacheable JOB_LABEL job (JOB_CACHE g) →
  cache_job JOB_LABEL job g = (cache_store (name (metadata job)) job g, Ok tt).
Proof.
  intros (Habsent & Hactive & job_labels & Hlabels & Hkey).
  rewrite cache_job_cases.
  apply PyDictFacts.contains_false in Habsent. rewrite Habsent.
  apply py_eq_int_false in Hactive. rewrite Hactive, Hlabels.
  apply is_none_false in Hkey. by rewrite Hkey.
Qed.

Lemma cache_job_not_cacheable job g :
  ¬ cacheable JOB_LABEL job (JOB_CACHE g) →
  (cache_job JOB_LABEL job g).1 = g.
Proof.
  intros Hnot. rewrite cache_job_cases.
  destruct (PyDict.contains _ _) eqn:Hin; [done|].
  destruct (py_eq_int _ _) eqn:Hact; [done|].
  destruct (labels _) as [job_labels|] eqn:Hlabels; [|done].
  destruct (is_none _) eqn:Hkey; [done|].
  exfalso. apply Hnot. split; [by apply PyDictFacts.contains_false|].
  split; [by apply py_eq_int_false|].
  exists job_labels. split; [done|]. by apply is_none_false.
Qed.

Lemma cacheable_decidable job g :
  cacheable JOB_LABEL job (JOB_CACHE g)
  ∨ ¬ cacheable JOB_LABEL job (JOB_CACHE g).
Proof.
  unfold cacheable, has_label.
  destruct (PyDict.get (JOB_CACHE g) (name (metadata job))) eqn:Hget;
    [right; by intros (? & _)|].
  destruct (decide (active (status job) = Some 1)) as [Hact|Hact];
    [right; by intros (_ & ? & _)|].
  destruct (labels (metadata job)) as [job_labels|] eqn:Hlabels;
    [|right; by intros (_ & _ & ? & ? & _)].
  destruct (job_labels !! JOB_LABEL) as [v|] eqn:Hkey.
  - left. split; [done|]. split; [done|]. exists job_labels.
    split; [done|]. rewrite Hkey. by exists v.
  - right. intros (_ & _ & ls & [= <-] & Hsome).
    rewrite Hkey in Hsome. by destruct Hsome.
Qed.

Lemma app_singleton_neq {A} (l : list A) (x : A) : l ++ [x] ≠ l.
Proof.
  intros Heq. apply (f_equal length) in Heq.
  rewrite length_app in Heq. simpl in Heq. lia.
Qed.

Lemma cache_job_metrics job g :
  metrics (cache_job JOB_LABEL job g).1 = metrics g.
Proof.
  rewrite cache_job_cases.
  destruct (PyDict.contains _ _); [done|].
  destruct (py_eq_int _ _); [done|].
  destruct (labels _); [|done]. by destruct (is_none _).
Qed.

(** C2: the job is inserted under its name exactly when the name is absent
    from the cache, the job's active count is not 1 and the classification
    label is among its labels; in every other case the globals, and so the
    cache, are left as they were. *)
Theorem cache_job_inserts_iff job g :
  let g' := (cache_job JOB_LABEL job g).1 in
  (cacheable JOB_LABEL job (JOB_CACHE g) →
     JOB_CACHE g' = PyDict.set (JOB_CACHE g) (name (metadata job)) job
     ∧ JOB_CACHE g' = JOB_CACHE g ++ [(name (metadata job), job)]
     ∧ PyDict.get (JOB_CACHE g') (name (metadata job)) = Some job)
  ∧ (¬ cacheable JOB_LABEL job (JOB_CACHE g) → g' = g)
  ∧ (JOB_CACHE g' ≠ JOB_CACHE g ↔ cacheable JOB_LABEL job (JOB_CACHE g))
  ∧ metrics g' = metrics g.
Proof.
  simpl. split; [|split; [|split]].
  - intros Hc. rewrite (cache_job_cacheable _ _ Hc). simpl.
    destruct Hc as (Habsent & _). split; [done|].
    split; [by apply PyDictFacts.set_fresh|].
    apply PyDictFacts.get_set_eq.
  - apply cache_job_not_cacheable.
  - split.
    + intros Hchanged.
      destruct (cacheable_decidable job g) as [Hc|Hc]; [done|].
      exfalso. apply Hchanged. by rewrite (cache_job_not_cacheable _ _ Hc).
    + intros Hc. rewrite (cache_job_cacheable _ _ Hc). simpl.
      destruct Hc as (Habsent & _).
      rewrite (PyDictFacts.set_fresh _ _ _ Habsent).
      apply app_singleton_neq.
  - apply cache_job_metrics.
Qed.

(** C3: once a name is cached, [cache_job] with any record of that name
    returns without touching the globals: the size of the cache and the
    record stored under the name stay as they were. *)
Theorem cache_job_frozen job g (stored : V1Job) :
  PyDict.get (JOB_CACHE g) (name (metadata job)) = Some stored →
  cache_job JOB_LABEL job g = (g, Ok tt)
  ∧ PyDict.len (JOB_CACHE (cache_job JOB_LABEL job g).1)
    = PyDict.len (JOB_CACHE g)
  ∧ PyDict.get (JOB_CACHE (cache_job JOB_LABEL job g).1)
      (name (metadata job)) = Some stored.
Proof.
  intros Hstored.
  assert (cache_job JOB_LABEL job g = (g, Ok tt)) as Heq.
  { rewrite cache_job_cases.
    assert (PyDict.contains (JOB_CACHE g) (name (metadata job)) = true)
      as ->; [|done].
    apply PyDictFacts.contains_true. by exists stored. }
  by rewrite Heq.
Qed.

(** C10: with labels that are a mapping [cache_job] returns, and either
    leaves the globals alone or appends the one entry for this job; with
    null labels, an uncached name and an active count other than 1 it
    raises a [TypeError] where a job without the label is skipped. *)
Theorem cache_job_null_labels_raise job g :
  (∀ job_labels, labels (metadata job) = Some job_labels →
     (cache_job JOB_LABEL job g).2 = Ok tt
     ∧ ((cache_job JOB_LABEL job g).1 = g
        ∨ (PyDict.get (JOB_CACHE g) (name (metadata job)) = None
           ∧ JOB_CACHE (cache_job JOB_LABEL job g).1
             = JOB_CACHE g ++ [(name (metadata job), job)]
           ∧ metrics (cache_job JOB_LABEL job g).1 = metrics g)))
  ∧ (labels (metadata job) = None →
     PyDict.get (JOB_CACHE g) (name (metadata job)) = None →
     active (status job) ≠ Some 1 →
     cache_job JOB_LABEL job g = (g, Raise TypeError)).
Proof.
  split.
  - intros job_labels Hlabels. rewrite cache_job_cases, Hlabels.
    destruct (PyDict.contains _ _) eqn:Hin; [by split; [|left]|].
    destruct (py_eq_int _ _); [by split; [|left]|].
    destruct (is_none _); [by split; [|left]|].
    split; [done|]. right. simpl.
    apply PyDictFacts.contains_false in Hin.
    split; [done|]. split; [|done]. by apply PyDictFacts.set_fresh.
  - intros Hnull Habsent Hactive. rewrite cache_job_cases, Hnull.
    apply PyDictFacts.contains_false in Habsent. rewrite Habsent.
    apply py_eq_int_false in Hactive. by rewrite Hactive.
Qed.

End cache.

(** ** Loops in the state monad *)

Lemma py_for_preserves {S A} (P : S → Prop) (body : A → Py S unit)
    (xs : list A) :
  (∀ x s, P s → P (body x s).1) → ∀ s, P s → P (py_for xs body s).1.
Proof.
  intros Hbody. induction xs as [|x xs IH]; intros s Hs; simpl; [done|].
  unfold mbind, py_bind. specialize (Hbody x s Hs).
  destruct (body x s) as [s' [[]|e]]; simpl in *; [by apply IH | done].
Qed.

(** ** Retrieval and the scrape cycle *)

Section pipeline.
Variable START : datetime.
Variable NAMESPACE : string.
Variable JOB_LABEL : string.
Implicit Types (job : V1Job) (g : Globals) (api : string → list_response).

Lemma retrieve_jobs_cases namespace api g :
  retrieve_jobs START JOB_LABEL namespace api g =
    match api namespace with
    | OtherError => (g, Raise ClientError)
    | _ =>
        match py_for (fetched api namespace) (cache_job JOB_LABEL) g with
        | (g1, Ok _) => (g1, Ok (eligible START (JOB_CACHE g1)))
        | (g1, Raise e) => (g1, Raise e)
        end
    end.
Proof.
  unfold retrieve_jobs, fetched, mbind, py_bind, mret, py_ret, py_raise.
  destruct (api namespace) as [items| |]; [| |done].
  - by destruct (py_for items (cache_job JOB_LABEL) g) as [g1 [[]|e]].
  - by destruct (py_for [] (cache_job JOB_LABEL) g) as [g1 [[]|e]].
Qed.

(** The state that [retrieve_jobs] leaves is the one its caching loop
    leaves. *)
Lemma retrieve_jobs_state namespace api g :
  (retrieve_jobs START JOB_LABEL namespace api g).1
  = (py_for (fetched api namespace) (cache_job JOB_LABEL) g).1.
Proof.
  rewrite retrieve_jobs_cases. unfold fetched.
  destruct (api namespace) as [items| |]; [| |done];
    by destruct (py_for _ _ g) as [g1 [[]|e]].
Qed.

(** When [retrieve_jobs] returns, the list call did not raise an uncaught
    exception, the caching loop returned, and the result is the eligible
    part of the cache. *)
Lemma retrieve_jobs_returned namespace api g g1 (jobs : list V1Job) :
  retrieve_jobs START JOB_LABEL namespace api g = (g1, Ok jobs) →
  api namespace ≠ OtherError
  ∧ py_for (fetched api namespace) (cache_job JOB_LABEL) g = (g1, Ok tt)
  ∧ jobs = eligible START (JOB_CACHE g1).
Proof.
  rewrite retrieve_jobs_cases.
  destruct (api namespace) as [items| |] eqn:Hapi; [| |done];
    (destruct (py_for _ _ g) as [g' [[]|e]]; [|done]);
    by intros [= <- <-].
Qed.

Lemma retrieve_jobs_of_loop namespace api g g1 :
  api namespace ≠ OtherError →
  py_for (fetched api namespace) (cache_job JOB_LABEL) g = (g1, Ok tt) →
  retrieve_jobs START JOB_LABEL namespace api g
  = (g1, Ok (eligible START (JOB_CACHE g1))).
Proof.
  intros Hapi Hloop. rewrite retrieve_jobs_cases, Hloop.
  by destruct (api namespace).
Qed.

Lemma scrape_cases api g :
  scrape START NAMESPACE JOB_LABEL api g =
    match retrieve_jobs START JOB_LABEL NAMESPACE api g with
    | (g1, Raise e) => (g1, Raise e)
    | (g1, Ok jobs) =>
        match (kubernetes_jobs_total JOB_LABEL jobs).2 with
        | Raise e => (g1, Raise e)
        | Ok _ =>
            match (kubernetes_jobs_total JOB_LABEL
                     (filter (λ job, py_ne_int (succeeded (status job)) 1
                                     = true) jobs)).2 with
            | Raise e => (g1, Raise e)
            | Ok _ =>
                match (kubernetes_job_duration_seconds JOB_LABEL
                         (filter (λ job, py_eq_int (succeeded (status job)) 1
                                         = true) jobs)).2 with
                | Raise e => (g1, Raise e)
                | Ok _ =>
                    (publish (jobs_total_family JOB_LABEL jobs)
                             (job_errors_total_family JOB_LABEL jobs)
                             (job_duration_seconds_family JOB_LABEL jobs)
                             g1, Ok tt)
                end
            end
        end
    end.
Proof.
  unfold scrape, mbind, py_bind.
  destruct (retrieve_jobs _ _ _ _ g) as [g1 [jobs|e]]; [|done].
  unfold py_for_gen.
  destruct (kubernetes_jobs_total JOB_LABEL jobs).2; [|done]. simpl.
  destruct (kubernetes_jobs_total JOB_LABEL (filter _ jobs)).2; [|done].
  simpl.
  by destruct (kubernetes_job_duration_seconds JOB_LABEL (filter _ jobs)).2.
Qed.

(** Entries of the cache stay where they are. *)
Lemma cache_job_keeps key job (stored : V1Job) g :
  PyDict.get (JOB_CACHE g) key = Some stored →
  PyDict.get (JOB_CACHE (cache_job JOB_LABEL job g).1) key = Some stored.
Proof.
  intros Hstored.
  destruct (cacheable_decidable JOB_LABEL job g) as [Hc|Hc].
  - rewrite (cache_job_cacheable _ _ _ Hc). simpl.
    destruct Hc as (Habsent & _).
    rewrite PyDictFacts.get_set_ne; [done|].
    intros Heq. rewrite Heq in Habsent. congruence.
  - by rewrite (cache_job_not_cacheable _ _ _ Hc).
Qed.

Lemma cache_job_labelled job g :
  cache_labelled JOB_LABEL (JOB_CACHE g) →
  cache_labelled JOB_LABEL (JOB_CACHE (cache_job JOB_LABEL job g).1).
Proof.
  intros Hinv.
  destruct (cacheable_decidable JOB_LABEL job g) as [Hc|Hc].
  - rewrite (cache_job_cacheable _ _ _ Hc). simpl. intros x Hx.
    apply PyDictFacts.elem_of_values_set in Hx as [->|Hx].
    + by destruct Hc as (_ & _ & ?).
    + by apply Hinv.
  - by rewrite (cache_job_not_cacheable _ _ _ Hc).
Qed.

Lemma retrieve_jobs_labelled namespace api g :
  cache_labelled JOB_LABEL (JOB_CACHE g) →
  cache_labelled JOB_LABEL
    (JOB_CACHE (retrieve_jobs START JOB_LABEL namespace api g).1).
Proof.
  intros Hinv. rewrite retrieve_jobs_state.
  apply (py_for_preserves
           (λ s, cache_labelled JOB_LABEL (JOB_CACHE s))
           (cache_job JOB_LABEL) (fetched api namespace)
           (λ x s, cache_job_labelled x s) g Hinv).
Qed.

Lemma scrape_cache api g :
  JOB_CACHE (scrape START NAMESPACE JOB_LABEL api g).1
  = JOB_CACHE (retrieve_jobs START JOB_LABEL NAMESPACE api g).1.
Proof.
  rewrite scrape_cases.
  destruct (retrieve_jobs _ _ _ _ g) as [g1 [jobs|e]]; [|done].
  destruct (kubernetes_jobs_total JOB_LABEL jobs).2; [|done].
  destruct (kubernetes_jobs_total JOB_LABEL (filter _ jobs)).2; [|done].
  by destruct (kubernetes_job_duration_seconds JOB_LABEL (filter _ jobs)).2.
Qed.

End pipeline.

(** ** Grouping by label *)

Section dict_nodup.
Context {K V : Type} `{EqDecision K}.
Implicit Types (d : list (K * V)) (k : K) (v : V).

Lemma keys_set_fresh d k v :
  PyDict.get d k = None → PyDict.keys (PyDict.set d k v) = PyDict.keys d ++ [k].
Proof.
  intros H. rewrite PyDictFacts.set_fresh by done.
  unfold PyDict.keys. by rewrite fmap_app.
Qed.

Lemma NoDup_keys_set d k v :
  NoDup (PyDict.keys d) → NoDup (PyDict.keys (PyDict.set d k v)).
Proof.
  intros Hnd. destruct (PyDict.get d k) as [v0|] eqn:Hget.
  - rewrite PyDictFacts.keys_set_present; [done | by exists v0].
  - rewrite keys_set_fresh by done. apply NoDup_app.
    split; [done|]. split; [|apply NoDup_singleton].
    intros x Hx Hk. apply list_elem_of_singleton in Hk as ->.
    by apply PyDictFacts.get_None_keys in Hget.
Qed.

Lemma get_of_item d k v :
  NoDup (PyDict.keys d) → (k, v) ∈ d → PyDict.get d k = Some v.
Proof.
  unfold PyDict.keys. induction d as [|[k' v'] d IH]; csimpl.
  - intros _ Hin. by apply not_elem_of_nil in Hin.
  - intros Hnd Hin. apply NoDup_cons in Hnd as [Hfresh Hnd].
    apply elem_of_cons in Hin as [[= -> ->]|Hin].
    + by rewrite decide_True.
    + rewrite decide_False; [by apply IH|].
      intros ->. apply Hfresh. apply list_elem_of_fmap.
      by exists (k, v).
Qed.

End dict_nodup.

Section grouping.
Variable JOB_LABEL : string.
Implicit Types (job : V1Job) (jobs : list V1Job).

Lemma group_cons_eq app job jobs :
  app_label_of JOB_LABEL job = Ok app →
  group JOB_LABEL app (job :: jobs) = job :: group JOB_LABEL app jobs.
Proof. intros H. unfold group. by rewrite filter_cons, decide_True. Qed.

Lemma group_cons_ne app job jobs :
  app_label_of JOB_LABEL job ≠ Ok app →
  group JOB_LABEL app (job :: jobs) = group JOB_LABEL app jobs.
Proof. intros H. unfold group. by rewrite filter_cons, decide_False. Qed.

(** What the grouping loop adds to the dictionary it starts from. *)
Lemma get_app_labels_from_get jobs :
  ∀ acc groups,
    get_app_labels_from JOB_LABEL acc jobs = Ok groups →
    ∀ app, PyDict.get groups app =
      match PyDict.get acc app with
      | Some data => Some (data ++ group JOB_LABEL app jobs)
      | None =>
          match group JOB_LABEL app jobs with
          | [] => None
          | data => Some data
          end
      end.
Proof.
  induction jobs as [|job jobs IH]; intros acc groups; simpl.
  - intros [= <-] app. destruct (PyDict.get acc app); [|done].
    by rewrite app_nil_r.
  - destruct (app_label_of JOB_LABEL job) as [a|e] eqn:Hlabel; [|done].
    set (acc1 := if negb (PyDict.contains acc a)
                 then PyDict.set acc a [] else acc).
    destruct (PyDict.get acc1 a) as [data|] eqn:Hdata; [|done].
    intros Hrun app. rewrite (IH _ _ Hrun app).
    destruct (decide (a = app)) as [<-|Hne].
    + rewrite PyDictFacts.get_set_eq, (group_cons_eq _ _ _ Hlabel).
      subst acc1. destruct (PyDict.contains acc a) eqn:Hin; simpl in Hdata.
      * rewrite Hdata. by rewrite <- app_assoc.
      * apply PyDictFacts.contains_false in Hin. rewrite Hin.
        rewrite PyDictFacts.get_set_eq in Hdata. by injection Hdata as <-.
    + rewrite PyDictFacts.get_set_ne by done.
      rewrite group_cons_ne by congruence.
      subst acc1. destruct (PyDict.contains acc a); simpl; [done|].
      by rewrite PyDictFacts.get_set_ne.
Qed.

Lemma get_app_labels_from_nodup jobs :
  ∀ acc groups,
    get_app_labels_from JOB_LABEL acc jobs = Ok groups →
    NoDup (PyDict.keys acc) → NoDup (PyDict.keys groups).
Proof.
  induction jobs as [|job jobs IH]; intros acc groups; simpl.
  - by intros [= <-].
  - destruct (app_label_of JOB_LABEL job) as [a|e]; [|done].
    destruct (PyDict.get _ a) as [data|]; [|done].
    intros Hrun Hnd. apply (IH _ _ Hrun). apply NoDup_keys_set.
    destruct (negb _); [by apply NoDup_keys_set | done].
Qed.

(** Every entry of the result is the label group of its key, and no group
    is empty. *)
Lemma get_app_labels_items jobs groups app data :
  get_app_labels JOB_LABEL jobs = Ok groups →
  (app, data) ∈ PyDict.items groups →
  data = group JOB_LABEL app jobs ∧ data ≠ [].
Proof.
  unfold get_app_labels, PyDict.items. intros Hrun Hin.
  assert (PyDict.get groups app = Some data) as Hget.
  { apply get_of_item; [|done].
    apply (get_app_labels_from_nodup _ _ _ Hrun). apply NoDup_nil_2. }
  rewrite (get_app_labels_from_get _ _ _ Hrun app) in Hget. simpl in Hget.
  destruct (group JOB_LABEL app jobs); [done|].
  injection Hget as <-. done.
Qed.

(** The loop returns when every job carries the classification label. *)
Lemma get_app_labels_from_total jobs :
  ∀ acc,
    Forall (has_label JOB_LABEL) jobs →
    ∃ groups, get_app_labels_from JOB_LABEL acc jobs = Ok groups.
Proof.
  induction jobs as [|job jobs IH]; intros acc Hall; simpl.
  - by exists acc.
  - apply Forall_cons in Hall as [(job_labels & Hlabels & v & Hv) Hall].
    unfold app_label_of. rewrite Hlabels, Hv.
    destruct (PyDict.contains acc v) eqn:Hin; simpl.
    + apply PyDictFacts.contains_true in Hin as [data Hdata].
      rewrite Hdata. by apply IH.
    + rewrite PyDictFacts.get_set_eq. by apply IH.
Qed.

Lemma get_app_labels_total jobs :
  Forall (has_label JOB_LABEL) jobs →
  ∃ groups, get_app_labels JOB_LABEL jobs = Ok groups.
Proof. apply get_app_labels_from_total. Qed.

Lemma kubernetes_jobs_total_returns jobs :
  Forall (has_label JOB_LABEL) jobs →
  (kubernetes_jobs_total JOB_LABEL jobs).2 = Ok tt.
Proof.
  intros Hall. unfold kubernetes_jobs_total.
  by destruct (get_app_labels_total jobs Hall) as [groups ->].
Qed.

End grouping.

(** ** The cache invariant, eligibility and a failed fetch *)

Section cycle.
Variable START : datetime.
Variable NAMESPACE : string.
Variable JOB_LABEL : string.
Implicit Types (job : V1Job) (g : Globals) (api : string → list_response).

Lemma eligible_subseteq cache : eligible START cache ⊆ PyDict.values cache.
Proof. intros job Hin. by apply list_elem_of_filter in Hin as [_ ?]. Qed.

Lemma labelled_Forall cache jobs :
  cache_labelled JOB_LABEL cache → jobs ⊆ PyDict.values cache →
  Forall (has_label JOB_LABEL) jobs.
Proof.
  intros Hinv Hsub. apply Forall_forall. intros job Hin.
  apply Hinv. by apply Hsub.
Qed.

(** C9: every cached record carries the classification label.  This holds
    of the empty cache and is kept by [cache_job], by [retrieve_jobs] and by
    [scrape]; hence [get_app_labels] returns, without a missing-key error,
    on any jobs taken from the cache, the eligible ones among them. *)
Theorem cache_labelled_invariant :
  cache_labelled JOB_LABEL (JOB_CACHE initial)
  ∧ (∀ job g,
       cache_labelled JOB_LABEL (JOB_CACHE g) →
       cache_labelled JOB_LABEL (JOB_CACHE (cache_job JOB_LABEL job g).1))
  ∧ (∀ namespace api g,
       cache_labelled JOB_LABEL (JOB_CACHE g) →
       cache_labelled JOB_LABEL
         (JOB_CACHE (retrieve_jobs START JOB_LABEL namespace api g).1))
  ∧ (∀ api g,
       cache_labelled JOB_LABEL (JOB_CACHE g) →
       cache_labelled JOB_LABEL
         (JOB_CACHE (scrape START NAMESPACE JOB_LABEL api g).1))
  ∧ (∀ cache jobs,
       cache_labelled JOB_LABEL cache → jobs ⊆ PyDict.values cache →
       ∃ groups, get_app_labels JOB_LABEL jobs = Ok groups)
  ∧ (∀ cache,
       cache_labelled JOB_LABEL cache →
       ∃ groups,
         get_app_labels JOB_LABEL (eligible START cache) = Ok groups).
Proof.
  split; [|split; [|split; [|split; [|split]]]].
  - intros job Hin. by apply not_elem_of_nil in Hin.
  - intros job g. apply cache_job_labelled.
  - intros namespace api g. apply retrieve_jobs_labelled.
  - intros api g Hinv. rewrite scrape_cache.
    by apply retrieve_jobs_labelled.
  - intros cache jobs Hinv Hsub. apply get_app_labels_total.
    by apply (labelled_Forall cache).
  - intros cache Hinv. apply get_app_labels_total.
    apply (labelled_Forall cache); [done | apply eligible_subseteq].
Qed.

Lemma py_for_cache_job_keeps key (stored : V1Job) (data : list V1Job) :
  ∀ g, PyDict.get (JOB_CACHE g) key = Some stored →
       PyDict.get (JOB_CACHE (py_for data (cache_job JOB_LABEL) g).1) key
       = Some stored.
Proof.
  intros g Hg.
  apply (py_for_preserves
           (λ s, PyDict.get (JOB_CACHE s) key = Some stored)); [|done].
  intros job s. apply cache_job_keeps.
Qed.

Lemma retrieve_jobs_api_exception namespace g :
  retrieve_jobs START JOB_LABEL namespace (λ _, ApiException) g
  = (g, Ok (eligible START (JOB_CACHE g))).
Proof. by rewrite retrieve_jobs_cases. Qed.

Lemma scrape_other_error g :
  scrape START NAMESPACE JOB_LABEL (λ _, OtherError) g
  = (g, Raise ClientError).
Proof. by rewrite scrape_cases, retrieve_jobs_cases. Qed.

Lemma cache_job_returns job g :
  is_Some (labels (metadata job)) → (cache_job JOB_LABEL job g).2 = Ok tt.
Proof.
  intros [job_labels Hlabels]. rewrite cache_job_cases, Hlabels.
  destruct (PyDict.contains _ _); [done|].
  destruct (py_eq_int _ _); [done|]. by destruct (is_none _).
Qed.

Lemma py_for_cache_job_returns (data : list V1Job) :
  ∀ g, Forall (λ job, is_Some (labels (metadata job))) data →
       (py_for data (cache_job JOB_LABEL) g).2 = Ok tt.
Proof.
  induction data as [|job data IH]; intros g Hall; [done|].
  apply Forall_cons in Hall as [Hjob Hall]. cbn [py_for].
  unfold mbind, py_bind. pose proof (cache_job_returns job g Hjob) as Hret.
  destruct (cache_job JOB_LABEL job g) as [g' [[]|e]]; [|done].
  by apply IH.
Qed.

(** C4: the jobs that [retrieve_jobs] returns are exactly the cached jobs
    created at or after [START], whatever [START] and the cache are; a
    cached job created before [START] stays in the cache and is in none of
    the three working sets of the cycle (all jobs, failed jobs, succeeded
    jobs).  The selection itself cannot fail: the call returns whenever the
    list call returns or raises [ApiException] and the caching of the
    fetched jobs returns. *)
Theorem retrieve_jobs_eligible namespace :
  (∀ g,
     retrieve_jobs START JOB_LABEL namespace (λ _, ApiException) g
     = (g, Ok (filter (λ job, START ≤ creation_timestamp (metadata job))
                      (PyDict.values (JOB_CACHE g)))))
  ∧ (∀ api g,
       api namespace ≠ OtherError →
       Forall (λ job, is_Some (labels (metadata job)))
              (fetched api namespace) →
       ∃ g1 jobs,
         retrieve_jobs START JOB_LABEL namespace api g = (g1, Ok jobs))
  ∧ (∀ api g g1 (jobs : list V1Job),
       retrieve_jobs START JOB_LABEL namespace api g = (g1, Ok jobs) →
       jobs = filter (λ job, START ≤ creation_timestamp (metadata job))
                     (PyDict.values (JOB_CACHE g1))
       ∧ (∀ job, job ∈ jobs ↔
                 job ∈ PyDict.values (JOB_CACHE g1)
                 ∧ START ≤ creation_timestamp (metadata job))
       ∧ (∀ key job,
            PyDict.get (JOB_CACHE g) key = Some job →
            creation_timestamp (metadata job) < START →
            PyDict.get (JOB_CACHE g1) key = Some job
            ∧ (job ∉ jobs)
            ∧ (job ∉ filter (λ job, py_ne_int (succeeded (status job)) 1
                                    = true) jobs)
            ∧ (job ∉ filter (λ job, py_eq_int (succeeded (status job)) 1
                                    = true) jobs))).
Proof.
  assert (∀ cache,
            eligible START cache
            = filter (λ job, START ≤ creation_timestamp (metadata job))
                     (PyDict.values cache)) as Hfilter.
  { intros cache. unfold eligible. apply list_filter_iff. intros job. lia. }
  split; [|split].
  - intros g. by rewrite retrieve_jobs_api_exception, Hfilter.
  - intros api g Hapi Hall.
    pose proof (py_for_cache_job_returns _ g Hall) as Hret.
    destruct (py_for (fetched api namespace) (cache_job JOB_LABEL) g)
      as [g1 [[]|e]] eqn:Hloop; [|done].
    exists g1, (eligible START (JOB_CACHE g1)).
    by apply retrieve_jobs_of_loop.
  - intros api g g1 jobs Hrun.
    pose proof (py_for_cache_job_keeps) as Hkeep.
    apply retrieve_jobs_returned in Hrun as (_ & Hloop & ->).
    rewrite Hfilter.
    assert (∀ job,
              job ∈ filter (λ job, START ≤ creation_timestamp (metadata job))
                           (PyDict.values (JOB_CACHE g1)) ↔
              job ∈ PyDict.values (JOB_CACHE g1)
              ∧ START ≤ creation_timestamp (metadata job)) as Hmem.
    { intros job. rewrite list_elem_of_filter. tauto. }
    split; [done|]. split; [done|].
    intros key job Hcached Hold.
    specialize (Hkeep key job (fetched api namespace) g Hcached).
    rewrite Hloop in Hkeep. split; [done|].
    assert (job ∉ filter (λ job, START ≤ creation_timestamp (metadata job))
                         (PyDict.values (JOB_CACHE g1))) as Hout.
    { rewrite Hmem. intros [_ ?]. lia. }
    split; [done|].
    split; intros Hin; apply list_elem_of_filter in Hin as [_ Hin]; done.
Qed.

Lemma publish_idempotent (a b : CounterMetricFamily)
    (c : HistogramMetricFamily) g :
  publish a b c (publish a b c g) = publish a b c g.
Proof.
  unfold publish. simpl. f_equal. apply map_eq. intros k.
  rewrite !lookup_insert. by repeat case_decide.
Qed.

(** C8, as the program has it: a cycle whose list call raises
    [ApiException] runs as a cycle that fetched no job and leaves the cache
    as it was; when it follows a cycle that completed, it completes too and
    the whole state, the three published families included, is what that
    cycle left.  As the first cycle of a process it completes as well.  An
    exception of the list call that is not an [ApiException] is not caught:
    it leaves the cycle, with the cache and the metrics as they were, and
    ends the polling loop, whatever the later cycles would fetch. *)
Theorem scrape_api_exception api g g1 :
  scrape START NAMESPACE JOB_LABEL api g = (g1, Ok tt) →
  scrape START NAMESPACE JOB_LABEL (λ _, ApiException) g1 = (g1, Ok tt)
  ∧ scrape START NAMESPACE JOB_LABEL (λ _, ApiException) g1
    = scrape START NAMESPACE JOB_LABEL (λ _, JobList []) g1
  ∧ JOB_CACHE (scrape START NAMESPACE JOB_LABEL (λ _, ApiException) g).1
    = JOB_CACHE g
  ∧ scrape START NAMESPACE JOB_LABEL (λ _, ApiException) g
    = scrape START NAMESPACE JOB_LABEL (λ _, JobList []) g
  ∧ (scrape START NAMESPACE JOB_LABEL (λ _, ApiException) initial).2
    = Ok tt
  ∧ scrape START NAMESPACE JOB_LABEL (λ _, OtherError) g1
    = (g1, Raise ClientError)
  ∧ ∀ apis,
      main_loop START NAMESPACE JOB_LABEL ((λ _, OtherError) :: apis) g1
      = (g1, Raise ClientError).
Proof.
  intros Hprev.
  assert (∀ s, scrape START NAMESPACE JOB_LABEL (λ _, ApiException) s
               = scrape START NAMESPACE JOB_LABEL (λ _, JobList []) s)
    as Hempty.
  { intros s. by rewrite !scrape_cases, !retrieve_jobs_cases. }
  split; [|split; [done|split; [|split; [done|split; [|split]]]]].
  - rewrite scrape_cases, retrieve_jobs_api_exception.
    rewrite scrape_cases in Hprev.
    destruct (retrieve_jobs _ _ _ _ g) as [g0 [jobs0|e]] eqn:Hrun; [|done].
    apply retrieve_jobs_returned in Hrun as (_ & _ & ->).
    set (jobs := eligible START (JOB_CACHE g0)) in *.
    destruct (kubernetes_jobs_total JOB_LABEL jobs).2 eqn:H1; [|done].
    destruct (kubernetes_jobs_total JOB_LABEL (filter _ jobs)).2 eqn:H2;
      [|done].
    destruct (kubernetes_job_duration_seconds JOB_LABEL (filter _ jobs)).2
      eqn:H3; [|done].
    injection Hprev as <-. simpl. fold jobs.
    rewrite H1, H2, H3. by rewrite publish_idempotent.
  - by rewrite scrape_cache, retrieve_jobs_api_exception.
  - by rewrite scrape_cases, retrieve_jobs_api_exception.
  - apply scrape_other_error.
  - intros apis. unfold main_loop. cbn [py_for]. unfold mbind, py_bind.
    by rewrite scrape_other_error.
Qed.

End cycle.

(** ** Binary64 rounding *)

Lemma round_half_even_exact (c den : Z) :
  0 < den → round_half_even (c * den) den = c.
Proof.
  intros Hden. unfold round_half_even.
  rewrite Z.mod_mul by lia. rewrite Z.div_mul by lia.
  assert ((2 * 0 <? den) = true) as -> by (apply Z.ltb_lt; lia). done.
Qed.

Lemma Qred_inject_Z (k : Z) : Qred (inject_Z k) = inject_Z k.
Proof. apply Qcanon.Qred_identity. simpl. apply Z.gcd_1_r. Qed.

(** An integer below [2 ^ 53] in magnitude is a float: rounding a rational
    that equals it gives it back. *)
Lemma round53_Z (x : Q) (k : Z) :
  (x == inject_Z k)%Q → Z.abs k < 2 ^ 53 → round53 x = inject_Z k.
Proof.
  intros Heq Hk. unfold Qeq in Heq. simpl in Heq.
  unfold round53.
  set (n := Qnum x) in *. set (d := Z.pos (Qden x)) in *.
  assert (0 < d) as Hd by (unfold d; lia).
  assert (n = k * d) as Hn by lia.
  clearbody n d. clear Heq.
  destruct (Z.eqb_spec n 0) as [H0|H0].
  { assert (k = 0) as -> by nia. done. }
  assert (k ≠ 0) as Hk0 by (intros ->; lia).
  assert (Z.abs n = Z.abs k * d) as Ha by (rewrite Hn, Z.abs_mul; lia).
  assert (Z.sgn n = Z.sgn k) as Hs.
  { rewrite Hn, Z.sgn_mul. rewrite (Z.sgn_pos d) by lia. lia. }
  rewrite Ha, Hs.
  set (e0 := Z.log2 (Z.abs k * d) - Z.log2 d - 53).
  assert (e0 ≤ 0) as He0.
  { unfold e0.
    pose proof (Z.log2_mul_above (Z.abs k) d ltac:(lia) ltac:(lia)).
    assert (Z.log2 (Z.abs k) < 53) by (apply Z.log2_lt_pow2; lia). lia. }
  assert (Z.sgn k * Z.abs k = k) as Hsa by (by destruct k).
  assert (∀ e, e ≤ 0 →
            Qred (if 0 <=? e
                  then inject_Z
                         (Z.sgn k * round_half_even
                                      (fst (scale (Z.abs k * d) d e))
                                      (snd (scale (Z.abs k * d) d e))
                          * 2 ^ e)
                  else Qmake
                         (Z.sgn k * round_half_even
                                      (fst (scale (Z.abs k * d) d e))
                                      (snd (scale (Z.abs k * d) d e)))
                         (Z.to_pos (2 ^ (- e))))
            = inject_Z k) as Hres.
  { intros e He. transitivity (Qred (inject_Z k)); [|apply Qred_inject_Z].
    apply Qred_complete.
    unfold scale. destruct (Z.leb_spec 0 e) as [Hle|Hlt]; cbn [fst snd].
    - assert (e = 0) as -> by lia. rewrite Z.pow_0_r, !Z.mul_1_r.
      rewrite round_half_even_exact by lia. by rewrite Hsa.
    - assert (0 < 2 ^ (- e)) as Hp by (apply Z.pow_pos_nonneg; lia).
      replace (Z.abs k * d * 2 ^ (- e)) with (Z.abs k * 2 ^ (- e) * d)
        by ring.
      rewrite round_half_even_exact by lia.
      unfold Qeq. simpl. rewrite Z2Pos.id by lia.
      rewrite Z.mul_assoc, Hsa. ring. }
  destruct (Z.leb_spec (2 ^ 53 * snd (scale (Z.abs k * d) d e0))
                       (fst (scale (Z.abs k * d) d e0))) as [Hbig|Hsmall].
  - apply Hres. destruct (Z.eq_dec e0 0) as [Hz|Hz]; [|lia].
    exfalso. rewrite Hz in Hbig. unfold scale in Hbig.
    cbn [Z.leb Z.compare fst snd] in Hbig.
    rewrite Z.pow_0_r, Z.mul_1_r in Hbig.
    assert (Z.abs k * d < 2 ^ 53 * d); [|lia].
    apply Z.mul_lt_mono_pos_r; lia.
  - by apply Hres.
Qed.

Lemma total_seconds_whole (k : Z) :
  Z.abs k < 2 ^ 53 → total_seconds (1000000 * k) = inject_Z k.
Proof.
  intros Hk. unfold total_seconds. apply round53_Z; [|done].
  unfold Qeq. simpl. lia.
Qed.

Lemma fadd_Z (a b : Z) :
  Z.abs (a + b) < 2 ^ 53 → fadd (inject_Z a) (inject_Z b) = inject_Z (a + b).
Proof.
  intros Hab. unfold fadd. apply round53_Z; [|done].
  by rewrite inject_Z_plus.
Qed.

Lemma sum_abs_nonneg (ks : list Z) :
  0 ≤ foldr (λ k acc, Z.abs k + acc) 0 ks.
Proof. induction ks as [|k ks IH]; simpl; lia. Qed.

(** The float sum of whole numbers is their sum, as long as the magnitudes
    add up to less than [2 ^ 53]. *)
Lemma fold_left_fadd_Z (ks : list Z) :
  ∀ s0,
    Z.abs s0 + foldr (λ k acc, Z.abs k + acc) 0 ks < 2 ^ 53 →
    fold_left fadd (inject_Z <$> ks) (inject_Z s0)
    = inject_Z (s0 + foldr Z.add 0 ks).
Proof.
  induction ks as [|k ks IH]; intros s0 Hsum.
  - cbn [fmap list_fmap fold_left foldr]. by rewrite Z.add_0_r.
  - rewrite fmap_cons. cbn [fold_left foldr] in *.
    pose proof (sum_abs_nonneg ks).
    rewrite fadd_Z by lia. rewrite IH by lia. f_equal. lia.
Qed.

Lemma Qsum_Z (ks : list Z) :
  (Qsum (inject_Z <$> ks) == inject_Z (foldr Z.add 0%Z ks))%Q.
Proof.
  unfold Qsum. induction ks as [|k ks IH]; csimpl; [done|].
  by rewrite IH, inject_Z_plus.
Qed.

(** ** The duration histogram *)

Section buckets.
Implicit Types (d : list (bucket * Z)) (b : bucket) (q : Q) (ds : list Q).

Lemma lt_float_below q b : lt_float q b = true ↔ below q b.
Proof.
  destruct b as [n|]; simpl; [apply bool_decide_eq_true | done].
Qed.

Lemma below_mono q b1 b2 : bucket_le b1 b2 → below q b1 → below q b2.
Proof.
  destruct b1 as [m|], b2 as [n|]; simpl; try done.
  intros Hle Hlt. apply Qlt_le_trans with (inject_Z m); [done|].
  by rewrite <- Zle_Qle.
Qed.

Lemma elem_of_find_applicable_buckets q b :
  b ∈ find_applicable_buckets q ↔ below q b ∧ b ∈ DURATION_BUCKETS ++ [Inf].
Proof.
  unfold find_applicable_buckets. rewrite list_elem_of_filter.
  by rewrite lt_float_below.
Qed.

Lemma NoDup_duration_buckets : NoDup (DURATION_BUCKETS ++ [Inf]).
Proof. apply (bool_decide_unpack _). by vm_compute. Qed.

Lemma NoDup_find_applicable_buckets q : NoDup (find_applicable_buckets q).
Proof. apply NoDup_filter, NoDup_duration_buckets. Qed.

Lemma sorted_duration_buckets :
  StronglySorted bucket_le (DURATION_BUCKETS ++ [Inf]).
Proof.
  unfold DURATION_BUCKETS. simpl.
  repeat (apply SSorted_cons; [|repeat constructor; simpl; lia]).
  apply SSorted_nil.
Qed.

Lemma count_below_cons b q ds :
  count_below b (q :: ds)
  = (if bool_decide (below q b) then 1 else 0) + count_below b ds.
Proof.
  unfold count_below. rewrite filter_cons.
  destruct (decide (lt_float q b = true)) as [Hlt|Hlt].
  - rewrite bool_decide_eq_true_2 by by apply lt_float_below.
    simpl length. lia.
  - rewrite bool_decide_eq_false_2; [lia|]. by rewrite <- lt_float_below.
Qed.

Lemma count_below_mono b1 b2 ds :
  bucket_le b1 b2 → count_below b1 ds ≤ count_below b2 ds.
Proof.
  intros Hle. induction ds as [|q ds IH]; [done|].
  rewrite !count_below_cons.
  destruct (bool_decide_reflect (below q b1)) as [H1|H1].
  - rewrite bool_decide_eq_true_2 by by apply (below_mono q b1). lia.
  - destruct (bool_decide (below q b2)); lia.
Qed.

Lemma count_below_Inf ds : count_below Inf ds = Z.of_nat (length ds).
Proof.
  induction ds as [|q ds IH]; [done|].
  rewrite count_below_cons, IH. simpl bool_decide. simpl length. lia.
Qed.

(** One [+= 1] *)
Lemma increment_get d b n :
  PyDict.get d b = Some n → increment d b = Ok (PyDict.set d b (n + 1)).
Proof. unfold increment. by intros ->. Qed.

(** The increments of one observation: every listed bucket gains one, the
    other counters stay. *)
Lemma increment_all_spec (applicable : list bucket) :
  ∀ d,
    NoDup applicable →
    (∀ b, b ∈ applicable → b ∈ PyDict.keys d) →
    ∃ d', increment_all d applicable = Ok d'
          ∧ PyDict.keys d' = PyDict.keys d
          ∧ ∀ b n, PyDict.get d b = Some n →
                   PyDict.get d' b
                   = Some (n + if bool_decide (b ∈ applicable) then 1 else 0).
Proof.
  induction applicable as [|b0 rest IH]; intros d Hnd Hkeys; simpl.
  - exists d. split; [done|]. split; [done|].
    intros b n ->. f_equal. lia.
  - apply NoDup_cons in Hnd as [Hfresh Hnd].
    destruct (PyDict.get d b0) as [n0|] eqn:Hget0.
    2:{ apply PyDictFacts.get_None_keys in Hget0. exfalso.
        apply Hget0, Hkeys. by left. }
    rewrite (increment_get _ _ _ Hget0).
    assert (PyDict.keys (PyDict.set d b0 (n0 + 1)) = PyDict.keys d)
      as Hkeys1.
    { apply PyDictFacts.keys_set_present. by exists n0. }
    destruct (IH (PyDict.set d b0 (n0 + 1)) Hnd) as (d' & Hrun & Hk & Hg).
    { intros b Hb. rewrite Hkeys1. apply Hkeys. by right. }
    exists d'. split; [done|]. split; [by rewrite Hk|].
    intros b n Hget. destruct (decide (b0 = b)) as [->|Hne].
    + rewrite Hget in Hget0. injection Hget0 as ->.
      rewrite (Hg b (n0 + 1)) by apply PyDictFacts.get_set_eq.
      rewrite (bool_decide_eq_false_2 (b ∈ rest)) by done.
      rewrite bool_decide_eq_true_2 by by left. f_equal. lia.
    + rewrite (Hg b n) by by rewrite PyDictFacts.get_set_ne.
      assert (bool_decide (b ∈ rest) = bool_decide (b ∈ b0 :: rest)) as ->;
        [|done].
      apply bool_decide_ext. rewrite elem_of_cons.
      split; [by right | by intros [?|?]].
Qed.

Lemma get_Some_keys d b n : PyDict.get d b = Some n → b ∈ PyDict.keys d.
Proof.
  intros Hget. destruct (decide (b ∈ PyDict.keys d)) as [|Hout]; [done|].
  apply PyDictFacts.get_None_keys in Hout. congruence.
Qed.

Lemma sub_datetime_lasts (job : V1Job) td :
  sub_datetime (completion_time (status job)) (start_time (status job))
  = Ok td →
  lasts job (total_seconds td).
Proof.
  unfold sub_datetime, lasts.
  destruct (completion_time _) as [c|]; [|done].
  destruct (start_time _) as [s|]; [|done].
  intros [= <-]. by exists c, s.
Qed.

(** The loop over one label group: it returns when every job has both
    timestamps, with every duration added and counted, and otherwise raises
    a [TypeError]. *)
Lemma observe_jobs_spec (jobs : list V1Job) :
  ∀ d s,
    PyDict.keys d = DURATION_BUCKETS ++ [Inf] →
    match observe_jobs d s jobs with
    | Ok (d', s') =>
        ∃ ds, Forall2 lasts jobs ds
              ∧ PyDict.keys d' = PyDict.keys d
              ∧ (∀ b n, PyDict.get d b = Some n →
                        PyDict.get d' b = Some (n + count_below b ds))
              ∧ s' = fold_left fadd ds s
    | Raise e =>
        e = TypeError
        ∧ ∃ job, job ∈ jobs ∧ job_duration job = Raise TypeError
    end.
Proof.
  induction jobs as [|job jobs IH]; intros d s Hkeys.
  - simpl. exists []. split; [constructor|]. split; [done|]. split; [|done].
    intros b n ->. f_equal. unfold count_below. simpl. lia.
  - cbn [observe_jobs].
    destruct (sub_datetime _ _) as [td|e] eqn:Hsub.
    2:{ assert (e = TypeError) as ->.
        { unfold sub_datetime in Hsub.
          destruct (completion_time (status job)),
                   (start_time (status job)); congruence. }
        split; [done|]. exists job. split; [by left|].
        unfold job_duration. by rewrite Hsub. }
    cbv zeta.
    destruct (increment_all_spec (find_applicable_buckets (total_seconds td))
                d (NoDup_find_applicable_buckets _))
      as (d1 & -> & Hkeys1 & Hget1).
    { intros b Hb. rewrite Hkeys.
      by apply elem_of_find_applicable_buckets in Hb as [_ ?]. }
    specialize (IH d1 (fadd s (total_seconds td))).
    rewrite Hkeys1 in IH. specialize (IH Hkeys).
    destruct (observe_jobs d1 _ jobs) as [[d' s']|e].
    + destruct IH as (ds & Hall & Hk & Hget & ->).
      exists (total_seconds td :: ds).
      split; [constructor; [by apply sub_datetime_lasts | done]|].
      split; [by rewrite Hk|]. split; [|done].
      intros b n Hb. rewrite (Hget b _ (Hget1 b n Hb)). f_equal.
      rewrite count_below_cons.
      assert (bool_decide (b ∈ find_applicable_buckets (total_seconds td))
              = bool_decide (below (total_seconds td) b)) as ->; [|lia].
      apply bool_decide_ext. rewrite elem_of_find_applicable_buckets.
      rewrite <- Hkeys. pose proof (get_Some_keys _ _ _ Hb). tauto.
    + destruct IH as (-> & job' & Hin & Hraise).
      split; [done|]. exists job'. split; [by right | done].
Qed.

Lemma read_buckets_spec d (count : bucket → Z) (l : list bucket) :
  (∀ b, b ∈ l → PyDict.get d b = Some (count b)) →
  read_buckets d l = Ok ((λ b, (str b, count b)) <$> l).
Proof.
  induction l as [|b l IH]; intros Hget; [done|].
  cbn [read_buckets]. rewrite (Hget b) by by left.
  rewrite IH; [done|]. intros b' Hb'. apply Hget. by right.
Qed.

Lemma get_zeros (l : list bucket) b :
  b ∈ l → PyDict.get ((λ b, (b, 0)) <$> l) b = Some 0.
Proof.
  induction l as [|b0 l IH]; csimpl.
  - intros Hin. by apply not_elem_of_nil in Hin.
  - intros Hin. destruct (decide (b0 = b)); [done|].
    apply IH. by apply elem_of_cons in Hin as [->|?].
Qed.

(** What is yielded for one label group. *)
Lemma histogram_of_group_spec (app : string) (jobs : list V1Job) :
  match histogram_of_group (DURATION_BUCKETS ++ [Inf]) app jobs with
  | Ok (buckets, sum, app_labels) =>
      ∃ ds, Forall2 lasts jobs ds
            ∧ buckets = (λ b, (str b, count_below b ds))
                          <$> (DURATION_BUCKETS ++ [Inf])
            ∧ sum = float_sum ds
            ∧ app_labels = [app]
  | Raise e =>
      e = TypeError ∧ ∃ job, job ∈ jobs ∧ job_duration job = Raise TypeError
  end.
Proof.
  unfold histogram_of_group.
  assert (fold_left (λ d b, PyDict.set d b 0) (DURATION_BUCKETS ++ [Inf]) []
          = (λ b, (b, 0)) <$> (DURATION_BUCKETS ++ [Inf])) as -> by done.
  set (d0 := (λ b, (b, 0)) <$> (DURATION_BUCKETS ++ [Inf])).
  pose proof (observe_jobs_spec jobs d0 0%Q eq_refl) as Hobs.
  destruct (observe_jobs d0 0%Q jobs) as [[d' s']|e]; [|done].
  destruct Hobs as (ds & Hall & Hkeys & Hget & ->).
  rewrite (read_buckets_spec d' (λ b, count_below b ds)).
  - by exists ds.
  - intros b Hb. by rewrite (Hget b 0 (get_zeros _ b Hb)).
Qed.

End buckets.

Section aggregation.
Variable JOB_LABEL : string.
Implicit Types (jobs : list V1Job) (groups : list (string * list V1Job)).

(** The durations of jobs that last whole seconds are those numbers of
    seconds, unrounded. *)
Lemma lasts_whole_seconds jobs (ds : list Q) :
  Forall2 lasts jobs ds →
  ∀ ks, Forall2 whole_seconds jobs ks →
        foldr (λ k acc, Z.abs k + acc) 0 ks < 2 ^ 53 →
        ds = inject_Z <$> ks.
Proof.
  induction 1 as [|job q jobs ds (c & s & Hc & Hs & ->) _ IH];
    intros ks Hks Hsum.
  - by apply Forall2_nil_inv_l in Hks as ->.
  - apply Forall2_cons_inv_l in Hks
      as (k & ks' & (c' & s' & Hc' & Hs' & Hk) & Hks & ->).
    cbn [foldr] in Hsum. pose proof (sum_abs_nonneg ks').
    rewrite fmap_cons. f_equal.
    + assert (c' = c) as -> by congruence.
      assert (s' = s) as -> by congruence.
      rewrite Hk. apply total_seconds_whole. lia.
    + apply IH; [done | lia].
Qed.

Lemma histogram_of_groups_emitted groups y :
  y ∈ (histogram_of_groups (DURATION_BUCKETS ++ [Inf]) groups).1 →
  ∃ app data, (app, data) ∈ groups
              ∧ histogram_of_group (DURATION_BUCKETS ++ [Inf]) app data
                = Ok y.
Proof.
  induction groups as [|[app data] groups IH]; cbn [histogram_of_groups].
  - intros Hin. by apply not_elem_of_nil in Hin.
  - destruct (histogram_of_group _ app data) as [y0|e] eqn:Hgroup.
    2:{ intros Hin. by apply not_elem_of_nil in Hin. }
    destruct (histogram_of_groups _ groups) as [ys r]. simpl in *.
    intros Hin. apply elem_of_cons in Hin as [->|Hin].
    + exists app, data. split; [by left | done].
    + destruct (IH Hin) as (app' & data' & Hin' & Hrun).
      exists app', data'. split; [by right | done].
Qed.

(** The generator returns when every group can be computed, and then it
    has yielded a value for each of them. *)
Lemma histogram_of_groups_returns groups :
  (∀ app data, (app, data) ∈ groups →
     ∃ y, histogram_of_group (DURATION_BUCKETS ++ [Inf]) app data = Ok y) →
  (histogram_of_groups (DURATION_BUCKETS ++ [Inf]) groups).2 = Ok tt
  ∧ ∀ app data, (app, data) ∈ groups →
      ∃ y, histogram_of_group (DURATION_BUCKETS ++ [Inf]) app data = Ok y
           ∧ y ∈ (histogram_of_groups (DURATION_BUCKETS ++ [Inf]) groups).1.
Proof.
  induction groups as [|[app data] groups IH]; cbn [histogram_of_groups].
  - intros _. split; [done|]. intros app data Hin.
    by apply not_elem_of_nil in Hin.
  - intros Hall. destruct (Hall app data) as [y0 Hy0]; [by left|].
    rewrite Hy0. destruct IH as [Hend Hyield].
    { intros app' data' Hin. apply Hall. by right. }
    destruct (histogram_of_groups _ groups) as [ys r]. simpl in *.
    split; [done|]. intros app' data' Hin.
    apply elem_of_cons in Hin as [[= -> ->]|Hin].
    + exists y0. split; [done | by left].
    + destruct (Hyield _ _ Hin) as (y & Hy & Hin').
      exists y. split; [done | by right].
Qed.

(** It raises, and then a [TypeError], when some group cannot. *)
Lemma histogram_of_groups_raises groups app data e :
  (app, data) ∈ groups →
  histogram_of_group (DURATION_BUCKETS ++ [Inf]) app data = Raise e →
  (histogram_of_groups (DURATION_BUCKETS ++ [Inf]) groups).2
  = Raise TypeError.
Proof.
  induction groups as [|[app0 data0] groups IH]; cbn [histogram_of_groups].
  - intros Hin. by apply not_elem_of_nil in Hin.
  - intros Hin Hraise.
    pose proof (histogram_of_group_spec app0 data0) as Hspec.
    destruct (histogram_of_group _ app0 data0) as [y0|e0] eqn:Hgroup.
    2:{ by destruct Hspec as [-> _]. }
    apply elem_of_cons in Hin as [[= -> ->]|Hin]; [congruence|].
    specialize (IH Hin Hraise).
    by destruct (histogram_of_groups _ groups) as [ys r].
Qed.

(** Every value that [kubernetes_job_duration_seconds] yields is the
    histogram of a non-empty label group of its input: the counter of a
    boundary is the number of jobs of the group below it, the sum is the
    left-to-right sum of their durations. *)
Lemma kubernetes_job_duration_seconds_emitted jobs
    (buckets : list (string * Z)) (sum : Q) (app_labels : list string) :
  (buckets, sum, app_labels)
    ∈ (kubernetes_job_duration_seconds JOB_LABEL jobs).1 →
  ∃ app ds,
    app_labels = [app]
    ∧ group JOB_LABEL app jobs ≠ []
    ∧ Forall2 lasts (group JOB_LABEL app jobs) ds
    ∧ buckets = (λ b, (str b, count_below b ds))
                  <$> (DURATION_BUCKETS ++ [Inf])
    ∧ sum = float_sum ds.
Proof.
  unfold kubernetes_job_duration_seconds. cbv zeta.
  destruct (get_app_labels JOB_LABEL jobs) as [groups|e] eqn:Hgroups.
  2:{ intros Hin. by apply not_elem_of_nil in Hin. }
  intros Hin.
  apply histogram_of_groups_emitted in Hin as (app & data & Hin & Hrun).
  destruct (get_app_labels_items _ _ _ _ _ Hgroups Hin) as [-> Hne].
  pose proof (histogram_of_group_spec app (group JOB_LABEL app jobs)) as Hs.
  rewrite Hrun in Hs. destruct Hs as (ds & Hall & -> & -> & ->).
  by exists app, ds.
Qed.

(** C5: a bucket of the configured list is yielded for a duration, and its
    counter incremented, exactly when the duration is strictly below the
    boundary; a duration equal to a finite boundary is not counted in that
    boundary's bucket. *)
Theorem find_applicable_buckets_strict (duration : Q) (b : bucket) :
  b ∈ DURATION_BUCKETS ++ [Inf] →
  (b ∈ find_applicable_buckets duration ↔ below duration b)
  ∧ (∀ n, b = Seconds n → (duration == inject_Z n)%Q →
          b ∉ find_applicable_buckets duration)
  ∧ (∀ buckets_dict n,
       PyDict.keys buckets_dict = DURATION_BUCKETS ++ [Inf] →
       PyDict.get buckets_dict b = Some n →
       ∃ buckets_dict',
         increment_all buckets_dict (find_applicable_buckets duration)
         = Ok buckets_dict'
         ∧ PyDict.get buckets_dict' b
           = Some (if bool_decide (below duration b) then n + 1 else n)).
Proof.
  intros Hb. split; [|split].
  - rewrite elem_of_find_applicable_buckets. tauto.
  - intros n -> Heq Hin.
    apply elem_of_find_applicable_buckets in Hin as [Hlt _]. simpl in Hlt.
    rewrite Heq in Hlt. by apply Qlt_irrefl in Hlt.
  - intros buckets_dict n Hkeys Hget.
    destruct (increment_all_spec (find_applicable_buckets duration)
                buckets_dict (NoDup_find_applicable_buckets _))
      as (d' & Hrun & _ & Hget').
    { intros b' Hb'. rewrite Hkeys.
      by apply elem_of_find_applicable_buckets in Hb' as [_ ?]. }
    exists d'. split; [done|]. rewrite (Hget' b n Hget). f_equal.
    assert (bool_decide (b ∈ find_applicable_buckets duration)
            = bool_decide (below duration b)) as ->.
    { apply bool_decide_ext. rewrite elem_of_find_applicable_buckets.
      tauto. }
    destruct (bool_decide (below duration b)); lia.
Qed.

(** C6: in every value that [kubernetes_job_duration_seconds] yields the
    buckets come in ascending boundary order, their counts never decrease
    along that order, and the count of ["+Inf"] is the number of jobs of the
    label group. *)
Theorem histogram_cumulative jobs (buckets : list (string * Z)) (sum : Q)
    (app_labels : list string) :
  (buckets, sum, app_labels)
    ∈ (kubernetes_job_duration_seconds JOB_LABEL jobs).1 →
  ∃ app,
    app_labels = [app]
    ∧ buckets.*1 = ["10"; "30"; "60"; "180"; "480"; "1200"; "3600"; "7200";
                    "+Inf"]
    ∧ StronglySorted Z.le (buckets.*2)
    ∧ last buckets
      = Some ("+Inf", Z.of_nat (length (group JOB_LABEL app jobs))).
Proof.
  intros Hin.
  apply kubernetes_job_duration_seconds_emitted in Hin
    as (app & ds & -> & _ & Hall & -> & _).
  exists app. split; [done|]. split; [|split].
  - by rewrite <- list_fmap_compose.
  - rewrite <- list_fmap_compose.
    apply (StronglySorted_fmap _ bucket_le);
      [|apply sorted_duration_buckets].
    intros b1 b2. apply count_below_mono.
  - rewrite fmap_app. cbn [fmap list_fmap]. rewrite last_snoc. simpl str.
    by rewrite count_below_Inf, (Forall2_length _ _ _ Hall).
Qed.

(** C7, as the program has it: the sum yielded with a label group is the
    float sum of the floats [(completion_time - start_time).total_seconds()]
    over exactly the jobs of the input that carry the group's label value,
    accumulated from [0] in the order of the input, every addition rounded
    to the nearest float.  When every job of the group lasts a whole number
    of seconds and these add up to less than [2 ^ 53] in magnitude, no
    addition rounds, and the sum is the arithmetic sum of the durations. *)
Theorem histogram_sum jobs (buckets : list (string * Z)) (sum : Q)
    (app_labels : list string) :
  (buckets, sum, app_labels)
    ∈ (kubernetes_job_duration_seconds JOB_LABEL jobs).1 →
  ∃ app ds,
    app_labels = [app]
    ∧ Forall2 lasts (group JOB_LABEL app jobs) ds
    ∧ sum = float_sum ds
    ∧ ∀ ks, Forall2 whole_seconds (group JOB_LABEL app jobs) ks →
            foldr (λ k acc, Z.abs k + acc) 0 ks < 2 ^ 53 →
            sum = inject_Z (foldr Z.add 0 ks) ∧ (sum == Qsum ds)%Q.
Proof.
  intros Hin.
  apply kubernetes_job_duration_seconds_emitted in Hin
    as (app & ds & -> & _ & Hall & _ & ->).
  exists app, ds. split; [done|]. split; [done|]. split; [done|].
  intros ks Hks Hsum.
  rewrite (lasts_whole_seconds _ _ Hall ks Hks Hsum).
  unfold float_sum. change 0%Q with (inject_Z 0).
  rewrite fold_left_fadd_Z by (simpl; lia).
  rewrite Z.add_0_l. split; [done|]. by rewrite Qsum_Z.
Qed.

End aggregation.

(** ** Jobs without a usable duration *)

Section integrity.
Variable START : datetime.
Variable NAMESPACE : string.
Variable JOB_LABEL : string.
Implicit Types (job : V1Job) (jobs : list V1Job) (g : Globals).

Lemma get_Some_item {K V} `{EqDecision K} (d : list (K * V)) k v :
  PyDict.get d k = Some v → (k, v) ∈ d.
Proof.
  induction d as [|[k' v'] d IH]; simpl; [done|].
  destruct (decide (k' = k)) as [->|Hne].
  - intros [= ->]. by left.
  - intros Hget. right. by apply IH.
Qed.

Lemma has_label_app_label_of job :
  has_label JOB_LABEL job → ∃ app, app_label_of JOB_LABEL job = Ok app.
Proof.
  intros (job_labels & Hlabels & app & Happ). exists app.
  unfold app_label_of. by rewrite Hlabels, Happ.
Qed.

Lemma lasts_job_duration job q : lasts job q → job_duration job = Ok q.
Proof.
  intros (c & s & Hc & Hs & ->). unfold job_duration. by rewrite Hc, Hs.
Qed.

Lemma missing_job_duration job :
  completion_time (status job) = None ∨ start_time (status job) = None →
  job_duration job = Raise TypeError.
Proof.
  unfold job_duration, sub_datetime. intros [->| ->]; [done|].
  by destruct (completion_time (status job)).
Qed.

Lemma Forall2_lasts_elem jobs (ds : list Q) job :
  Forall2 lasts jobs ds → job ∈ jobs → ∃ q, lasts job q.
Proof.
  induction 1 as [|job0 q0 jobs ds Hlast _ IH]; intros Hin.
  - by apply not_elem_of_nil in Hin.
  - apply elem_of_cons in Hin as [->|Hin]; [by exists q0 | by apply IH].
Qed.

(** A non-empty label group is an entry of the grouping. *)
Lemma get_app_labels_group jobs groups app :
  get_app_labels JOB_LABEL jobs = Ok groups →
  group JOB_LABEL app jobs ≠ [] →
  (app, group JOB_LABEL app jobs) ∈ groups.
Proof.
  intros Hrun Hne. apply get_Some_item.
  rewrite (get_app_labels_from_get _ _ _ _ Hrun app). simpl.
  by destruct (group JOB_LABEL app jobs).
Qed.

Lemma duration_seconds_returns jobs :
  Forall (has_label JOB_LABEL) jobs →
  (∀ job, job ∈ jobs → ∃ q, lasts job q) →
  (kubernetes_job_duration_seconds JOB_LABEL jobs).2 = Ok tt
  ∧ ∀ app, group JOB_LABEL app jobs ≠ [] →
      ∃ buckets sum ds,
        (buckets, sum, [app])
          ∈ (kubernetes_job_duration_seconds JOB_LABEL jobs).1
        ∧ Forall2 lasts (group JOB_LABEL app jobs) ds
        ∧ buckets = (λ b, (str b, count_below b ds))
                      <$> (DURATION_BUCKETS ++ [Inf])
        ∧ sum = float_sum ds.
Proof.
  intros Hlabelled Htimes.
  destruct (get_app_labels_total JOB_LABEL jobs Hlabelled)
    as [groups Hgroups].
  unfold kubernetes_job_duration_seconds. cbv zeta. rewrite Hgroups.
  destruct (histogram_of_groups_returns groups) as [Hend Hyield].
  { intros app data Hin.
    destruct (get_app_labels_items _ _ _ _ _ Hgroups Hin) as [-> _].
    pose proof (histogram_of_group_spec app (group JOB_LABEL app jobs))
      as Hspec.
    destruct (histogram_of_group _ app _) as [y|e]; [by exists y|].
    destruct Hspec as (_ & job & Hin' & Hraise).
    apply list_elem_of_filter in Hin' as [_ Hin'].
    destruct (Htimes job Hin') as [q Hq].
    rewrite (lasts_job_duration _ _ Hq) in Hraise. done. }
  split; [done|]. intros app Hne.
  destruct (Hyield app _ (get_app_labels_group _ _ _ Hgroups Hne))
    as (y & Hy & Hin).
  pose proof (histogram_of_group_spec app (group JOB_LABEL app jobs))
    as Hspec.
  rewrite Hy in Hspec. destruct y as [[buckets sum] app_labels].
  destruct Hspec as (ds & Hall & -> & -> & ->).
  by eexists _, _, ds.
Qed.

Lemma duration_seconds_raises jobs :
  Forall (has_label JOB_LABEL) jobs →
  (∃ job, job ∈ jobs
          ∧ (completion_time (status job) = None
             ∨ start_time (status job) = None)) →
  (kubernetes_job_duration_seconds JOB_LABEL jobs).2 = Raise TypeError.
Proof.
  intros Hlabelled (job & Hin & Hmissing).
  destruct (get_app_labels_total JOB_LABEL jobs Hlabelled)
    as [groups Hgroups].
  unfold kubernetes_job_duration_seconds. cbv zeta. rewrite Hgroups.
  destruct (has_label_app_label_of job) as [app Happ].
  { by apply (proj1 (Forall_forall _ _) Hlabelled). }
  assert (job ∈ group JOB_LABEL app jobs) as Hmember.
  { unfold group. by apply list_elem_of_filter. }
  assert (group JOB_LABEL app jobs ≠ []) as Hne.
  { intros Hnil. rewrite Hnil in Hmember.
    by apply not_elem_of_nil in Hmember. }
  pose proof (histogram_of_group_spec app (group JOB_LABEL app jobs))
    as Hspec.
  destruct (histogram_of_group _ app _) as [[[buckets sum] l]|e] eqn:Hrun.
  - destruct Hspec as (ds & Hall & _).
    destruct (Forall2_lasts_elem _ _ _ Hall Hmember) as [q Hq].
    pose proof (lasts_job_duration _ _ Hq) as Hok.
    pose proof (missing_job_duration _ Hmissing) as Hraise.
    congruence.
  - apply (histogram_of_groups_raises groups app
             (group JOB_LABEL app jobs) e); [|done].
    by apply get_app_labels_group.
Qed.

Lemma find_applicable_buckets_negative (q : Q) :
  (q < 0)%Q → find_applicable_buckets q = DURATION_BUCKETS ++ [Inf].
Proof.
  intros Hneg.
  assert (∀ n, 0 ≤ n → lt_float q (Seconds n) = true) as Hlt.
  { intros n Hn. apply lt_float_below. simpl.
    apply Qlt_le_trans with 0%Q; [done|].
    change 0%Q with (inject_Z 0). by rewrite <- Zle_Qle. }
  unfold find_applicable_buckets, DURATION_BUCKETS. cbv zeta. simpl app.
  repeat (rewrite filter_cons, decide_True; [f_equal | by apply Hlt]).
Qed.

Lemma retrieve_jobs_metrics namespace (api : string → list_response) g :
  metrics (retrieve_jobs START JOB_LABEL namespace api g).1 = metrics g.
Proof.
  rewrite retrieve_jobs_state.
  apply (py_for_preserves (λ s, metrics s = metrics g)); [|done].
  intros job s <-. apply cache_job_metrics.
Qed.

(** C1, as the program has it: the aggregation skips no job.  When every
    job fed in has both timestamps the generator returns and every label
    group is yielded with all its jobs counted and summed, a job of negative
    duration included, for such a duration is below every boundary.  When
    some job lacks its start or completion time the generator raises a
    [TypeError], and a cycle whose succeeded eligible jobs include such a
    job raises it too, with the published metrics left as they were. *)
Theorem duration_histogram_no_skip :
  (∀ jobs,
     Forall (has_label JOB_LABEL) jobs →
     (∀ job, job ∈ jobs → ∃ q, lasts job q) →
     (kubernetes_job_duration_seconds JOB_LABEL jobs).2 = Ok tt
     ∧ ∀ app, group JOB_LABEL app jobs ≠ [] →
         ∃ buckets sum ds,
           (buckets, sum, [app])
             ∈ (kubernetes_job_duration_seconds JOB_LABEL jobs).1
           ∧ Forall2 lasts (group JOB_LABEL app jobs) ds
           ∧ buckets = (λ b, (str b, count_below b ds))
                         <$> (DURATION_BUCKETS ++ [Inf])
           ∧ sum = float_sum ds)
  ∧ (∀ q : Q,
       (q < 0)%Q → find_applicable_buckets q = DURATION_BUCKETS ++ [Inf])
  ∧ (∀ jobs,
       Forall (has_label JOB_LABEL) jobs →
       (∃ job, job ∈ jobs
               ∧ (completion_time (status job) = None
                  ∨ start_time (status job) = None)) →
       (kubernetes_job_duration_seconds JOB_LABEL jobs).2 = Raise TypeError)
  ∧ (∀ (api : string → list_response) g g1 jobs,
       cache_labelled JOB_LABEL (JOB_CACHE g) →
       retrieve_jobs START JOB_LABEL NAMESPACE api g = (g1, Ok jobs) →
       (∃ job, job ∈ jobs
               ∧ succeeded (status job) = Some 1
               ∧ (completion_time (status job) = None
                  ∨ start_time (status job) = None)) →
       scrape START NAMESPACE JOB_LABEL api g = (g1, Raise TypeError)
       ∧ metrics g1 = metrics g).
Proof.
  split; [|split; [|split]].
  - apply duration_seconds_returns.
  - apply find_applicable_buckets_negative.
  - apply duration_seconds_raises.
  - intros api g g1 jobs Hinv Hrun (job & Hin & Hsucc & Hmissing).
    pose proof (retrieve_jobs_labelled START JOB_LABEL NAMESPACE api g Hinv)
      as Hinv1.
    pose proof (retrieve_jobs_metrics NAMESPACE api g) as Hmetrics.
    rewrite scrape_cases. rewrite Hrun in *. simpl in Hinv1, Hmetrics.
    split; [|done].
    assert (jobs = eligible START (JOB_CACHE g1)) as Hjobs.
    { by apply retrieve_jobs_returned in Hrun as (_ & _ & ->). }
    assert (Forall (has_label JOB_LABEL) jobs) as Hall.
    { rewrite Hjobs. apply (labelled_Forall JOB_LABEL (JOB_CACHE g1));
        [done | apply eligible_subseteq]. }
    rewrite kubernetes_jobs_total_returns by done.
    rewrite kubernetes_jobs_total_returns
      by (apply Forall_forall; intros x Hx;
          apply list_elem_of_filter in Hx as [_ Hx];
          by apply (proj1 (Forall_forall _ _) Hall)).
    rewrite duration_seconds_raises; [done| |].
    + apply Forall_forall. intros x Hx.
      apply list_elem_of_filter in Hx as [_ Hx].
      by apply (proj1 (Forall_forall _ _) Hall).
    + exists job. split; [|done]. apply list_elem_of_filter.
      split; [by apply py_eq_int_true | done].
Qed.

End integrity.

(** ** The properties at sample records *)

Lemma has_label_app_foo n created act succ started completed :
  has_label "app"
    (mk_job n created (Some app_foo) act succ started completed).
Proof. exists app_foo. split; [done|]. by exists "foo". Defined.

Lemma has_label_app_bar n created act succ started completed :
  has_label "app"
    (mk_job n created (Some app_bar) act succ started completed).
Proof. exists app_bar. split; [done|]. by exists "bar". Defined.

(** C1, as the specification states it, fails: with a succeeded job that
    has no completion time the generator raises after the first group and
    the cycle raises without publishing; a job of negative duration is
    counted in every bucket and summed rather than skipped. *)
Lemma duration_skip_counterexample :
  (scrape 1000 "ns" "app" (λ _, JobList [job_5s; job_no_completion])
     initial).2 = Raise TypeError
  ∧ metrics (scrape 1000 "ns" "app"
               (λ _, JobList [job_5s; job_no_completion]) initial).1 = ∅
  ∧ kubernetes_job_duration_seconds "app" [job_5s; job_no_completion]
    = ([([("10", 1); ("30", 1); ("60", 1); ("180", 1); ("480", 1);
          ("1200", 1); ("3600", 1); ("7200", 1); ("+Inf", 1)],
         fadd 0 (total_seconds 5000000), ["foo"])],
       Raise TypeError)
  ∧ ¬ skips_invalid_durations "app" [job_5s; job_no_completion]
  ∧ kubernetes_job_duration_seconds "app" [job_negative]
    = ([([("10", 1); ("30", 1); ("60", 1); ("180", 1); ("480", 1);
          ("1200", 1); ("3600", 1); ("7200", 1); ("+Inf", 1)],
         fadd 0 (total_seconds (-7000000)), ["foo"])],
       Ok tt)
  ∧ ¬ skips_invalid_durations "app" [job_negative].
Proof.
  split; [by vm_compute|]. split; [by vm_compute|].
  split; [by vm_compute|]. split; [|split; [by vm_compute|]].
  - intros [_ Hend]. revert Hend. by vm_compute.
  - intros [Hsame _]. revert Hsame. by vm_compute.
Qed.

(** C1 at sample records: two jobs with both timestamps, one of them of
    negative duration, are aggregated to the end; with a job lacking its
    completion time the generator raises. *)
Lemma duration_histogram_no_skip_witness :
  (kubernetes_job_duration_seconds "app" [job_5s; job_negative]).2 = Ok tt
  ∧ (kubernetes_job_duration_seconds "app" [job_5s; job_no_completion]).2
    = Raise TypeError.
Proof.
  pose proof (duration_histogram_no_skip 1000 "ns" "app")
    as (Hreturns & _ & Hraises & _).
  split.
  - apply Hreturns.
    + repeat constructor; apply has_label_app_foo.
    + intros job Hin. apply elem_of_cons in Hin as [->|Hin].
      { exists (total_seconds 5000000), 5003000, 3000. by vm_compute. }
      apply list_elem_of_singleton in Hin as ->.
      exists (total_seconds (-7000000)), 2000000, 9000000. by vm_compute.
  - apply Hraises.
    + repeat constructor; [apply has_label_app_foo | apply has_label_app_bar].
    + exists job_no_completion. split; [|by left].
      apply elem_of_cons. right. by left.
Defined.

(** C2 at sample records: a finished, labelled job enters the empty cache;
    a running job does not. *)
Lemma cache_job_inserts_iff_witness :
  JOB_CACHE (cache_job "app" job_5s initial).1 = [("job-5s", job_5s)]
  ∧ (cache_job "app" job_running initial).1 = initial.
Proof.
  split.
  - apply (cache_job_inserts_iff "app" job_5s initial).
    split; [done|]. split; [done|]. apply has_label_app_foo.
  - apply (cache_job_inserts_iff "app" job_running initial).
    intros (_ & Hactive & _). by apply Hactive.
Defined.

(** C3 at sample records: a later view of a cached job changes nothing. *)
Lemma cache_job_frozen_witness :
  cache_job "app" job_5s_later (cache_job "app" job_5s initial).1
  = ((cache_job "app" job_5s initial).1, Ok tt)
  ∧ PyDict.get
      (JOB_CACHE (cache_job "app" job_5s_later
                    (cache_job "app" job_5s initial).1).1) "job-5s"
    = Some job_5s.
Proof.
  pose proof (cache_job_frozen "app" job_5s_later
                (cache_job "app" job_5s initial).1 job_5s)
    as Hfrozen.
  destruct Hfrozen as (Hsame & _ & Hstored); [by vm_compute|].
  split; [exact Hsame | exact Hstored].
Defined.

(** C4 at sample records: a cached job older than [START] stays cached and
    is not returned. *)
Lemma retrieve_jobs_eligible_witness :
  PyDict.get [("job-old", job_old); ("job-5s", job_5s)] "job-old"
  = Some job_old
  ∧ job_old ∉ [job_5s].
Proof.
  pose proof (retrieve_jobs_eligible 1000 "app" "ns") as (_ & _ & Heligible).
  destruct (Heligible (λ _, JobList [job_5s])
              {| JOB_CACHE := [("job-old", job_old)]; metrics := ∅ |}
              {| JOB_CACHE := [("job-old", job_old); ("job-5s", job_5s)];
                 metrics := ∅ |}
              [job_5s]) as (_ & _ & Hold); [by vm_compute|].
  destruct (Hold "job-old" job_old) as (Hkept & Hout & _);
    [by vm_compute | by vm_compute |].
  split; [exact Hkept | exact Hout].
Defined.

(** C5 at a sample duration: ten seconds are not below the boundary 10. *)
Lemma find_applicable_buckets_strict_witness :
  (Seconds 10 ∉ find_applicable_buckets (inject_Z 10))
  ∧ (Seconds 30 ∈ find_applicable_buckets (inject_Z 10)
     ↔ below (inject_Z 10) (Seconds 30)).
Proof.
  split.
  - destruct (find_applicable_buckets_strict (inject_Z 10) (Seconds 10))
      as (_ & Hequal & _); [by left|].
    by apply (Hequal 10).
  - destruct (find_applicable_buckets_strict (inject_Z 10) (Seconds 30))
      as (Hiff & _); [right; by left|].
    exact Hiff.
Defined.

(** The histogram of the sample jobs of 5, 45 and 400 seconds. *)
Lemma sample_histogram :
  kubernetes_job_duration_seconds "app" [job_5s; job_45s; job_400s]
  = ([([("10", 1); ("30", 1); ("60", 2); ("180", 2); ("480", 3);
        ("1200", 3); ("3600", 3); ("7200", 3); ("+Inf", 3)],
       inject_Z 450, ["foo"])],
     Ok tt).
Proof. by vm_compute. Qed.

(** C6 at the sample jobs of 5, 45 and 400 seconds. *)
Lemma histogram_cumulative_witness :
  ∃ app,
    ["foo"] = [app]
    ∧ [("10", 1); ("30", 1); ("60", 2); ("180", 2); ("480", 3);
       ("1200", 3); ("3600", 3); ("7200", 3); ("+Inf", 3)].*1
      = ["10"; "30"; "60"; "180"; "480"; "1200"; "3600"; "7200"; "+Inf"]
    ∧ StronglySorted Z.le
        ([("10", 1); ("30", 1); ("60", 2); ("180", 2); ("480", 3);
          ("1200", 3); ("3600", 3); ("7200", 3); ("+Inf", 3)].*2)
    ∧ last [("10", 1); ("30", 1); ("60", 2); ("180", 2); ("480", 3);
            ("1200", 3); ("3600", 3); ("7200", 3); ("+Inf", 3)]
      = Some ("+Inf",
              Z.of_nat (length (group "app" app
                                  [job_5s; job_45s; job_400s]))).
Proof.
  apply (histogram_cumulative "app" [job_5s; job_45s; job_400s] _
           (inject_Z 450)).
  rewrite sample_histogram. by apply list_elem_of_singleton.
Defined.

(** C7, as the specification states it, fails: for two jobs of a tenth
    and of two tenths of a second the published sum is the float
    0.30000000000000004, which is neither three tenths nor the arithmetic
    sum of the two float durations. *)
Lemma histogram_sum_counterexample :
  kubernetes_job_duration_seconds "app" [job_100ms; job_200ms]
  = ([([("10", 2); ("30", 2); ("60", 2); ("180", 2); ("480", 2);
        ("1200", 2); ("3600", 2); ("7200", 2); ("+Inf", 2)],
       Qmake 1351079888211149 4503599627370496, ["foo"])],
     Ok tt)
  ∧ Forall2 lasts (group "app" "foo" [job_100ms; job_200ms])
      [total_seconds 100000; total_seconds 200000]
  ∧ ¬ (Qmake 1351079888211149 4503599627370496
       == exact_seconds 100000 + exact_seconds 200000)%Q
  ∧ ¬ (Qmake 1351079888211149 4503599627370496
       == Qsum [total_seconds 100000; total_seconds 200000])%Q.
Proof.
  split; [by vm_compute|]. split; [|split].
  - assert (group "app" "foo" [job_100ms; job_200ms]
            = [job_100ms; job_200ms]) as -> by (by vm_compute).
    constructor; [|constructor; [|constructor]].
    + exists 103000, 3000. by vm_compute.
    + exists 203000, 3000. by vm_compute.
  - intros Heq. apply Qeq_bool_iff in Heq. revert Heq. by vm_compute.
  - intros Heq. apply Qeq_bool_iff in Heq. revert Heq. by vm_compute.
Qed.

(** C7 at the jobs of 5, 45 and 400 seconds: the sum is 450 seconds. *)
Lemma histogram_sum_witness :
  ∃ app ds,
    ["foo"] = [app]
    ∧ Forall2 lasts (group "app" app [job_5s; job_45s; job_400s]) ds
    ∧ inject_Z 450 = float_sum ds
    ∧ (inject_Z 450 == Qsum ds)%Q.
Proof.
  destruct (histogram_sum "app" [job_5s; job_45s; job_400s]
              [("10", 1); ("30", 1); ("60", 2); ("180", 2); ("480", 3);
               ("1200", 3); ("3600", 3); ("7200", 3); ("+Inf", 3)]
              (inject_Z 450) ["foo"])
    as (app & ds & Happ & Hall & Hsum & Hwhole).
  { rewrite sample_histogram. by apply list_elem_of_singleton. }
  exists app, ds. split; [exact Happ|]. split; [exact Hall|].
  split; [exact Hsum|].
  apply (Hwhole [5; 45; 400]); [|by vm_compute].
  injection Happ as <-.
  assert (group "app" "foo" [job_5s; job_45s; job_400s]
          = [job_5s; job_45s; job_400s]) as -> by (by vm_compute).
  constructor; [|constructor; [|constructor; [|constructor]]].
  - exists 5003000, 3000. by vm_compute.
  - exists 45003000, 3000. by vm_compute.
  - exists 400003000, 3000. by vm_compute.
Defined.

(** C8, as the specification states it, fails: when the list call raises
    an exception that is not an [ApiException], as it does for a server
    that cannot be reached, the cycle after a completed cycle raises that
    exception, and so does the polling loop, whose later cycles never
    run. *)
Lemma scrape_unreachable_counterexample :
  (scrape 1000 "ns" "app" (λ _, JobList [job_5s; job_45s]) initial).2
  = Ok tt
  ∧ (scrape 1000 "ns" "app" (λ _, OtherError)
       (scrape 1000 "ns" "app" (λ _, JobList [job_5s; job_45s])
          initial).1).2
    = Raise ClientError
  ∧ (main_loop 1000 "ns" "app"
       [(λ _, JobList [job_5s; job_45s]); (λ _, OtherError);
        (λ _, JobList [job_5s; job_45s; job_400s])] initial).2
    = Raise ClientError
  ∧ PyDict.keys
      (JOB_CACHE
         (main_loop 1000 "ns" "app"
            [(λ _, JobList [job_5s; job_45s]); (λ _, OtherError);
             (λ _, JobList [job_5s; job_45s; job_400s])] initial).1)
    = ["job-5s"; "job-45s"].
Proof. repeat split; by vm_compute. Qed.

(** C8 at sample records: a failed fetch after a completed cycle. *)
Lemma scrape_api_exception_witness :
  scrape 1000 "ns" "app" (λ _, ApiException)
    (scrape 1000 "ns" "app"
       (λ _, JobList [job_5s; job_45s; job_400s; job_running]) initial).1
  = ((scrape 1000 "ns" "app"
        (λ _, JobList [job_5s; job_45s; job_400s; job_running]) initial).1,
     Ok tt).
Proof.
  refine (proj1 (scrape_api_exception 1000 "ns" "app"
                   (λ _, JobList [job_5s; job_45s; job_400s; job_running])
                   initial _ _)).
  by vm_compute.
Defined.

(** C9 at sample records: the jobs of a cache filled by [cache_job] can be
    grouped. *)
Lemma cache_labelled_invariant_witness :
  ∃ groups,
    get_app_labels "app"
      (PyDict.values (JOB_CACHE (cache_job "app" job_5s initial).1))
    = Ok groups.
Proof.
  pose proof (cache_labelled_invariant 1000 "ns" "app")
    as (Hinit & Hstep & _ & _ & Hgroup & _).
  apply (Hgroup (JOB_CACHE (cache_job "app" job_5s initial).1)).
  - apply Hstep, Hinit.
  - done.
Defined.

(** C10 at sample records: null labels raise, an empty label set does
    not. *)
Lemma cache_job_null_labels_raise_witness :
  cache_job "app" job_null_labels initial = (initial, Raise TypeError)
  ∧ (cache_job "app" job_unlabelled initial).2 = Ok tt.
Proof.
  split.
  - by apply (cache_job_null_labels_raise "app" job_null_labels initial).
  - by apply (proj1 (cache_job_null_labels_raise "app" job_unlabelled
                       initial) team_x).
Defined.

(** ** More about grouping and counting *)

Section grouping_more.
Variable JOB_LABEL : string.
Implicit Types (job : V1Job) (jobs : list V1Job)
  (groups : list (string * list V1Job)).

Lemma app_label_of_has_label job app :
  app_label_of JOB_LABEL job = Ok app → has_label JOB_LABEL job.
Proof.
  unfold app_label_of, has_label.
  destruct (labels (metadata job)) as [job_labels|]; [|done].
  destruct (job_labels !! JOB_LABEL) as [v|] eqn:Hv; [|done].
  intros _. exists job_labels. split; [done|]. by exists v.
Qed.

Lemma app_label_of_raise job e :
  app_label_of JOB_LABEL job = Raise e ↔
  (labels (metadata job) = None ∧ e = TypeError)
  ∨ (∃ job_labels, labels (metadata job) = Some job_labels
                   ∧ job_labels !! JOB_LABEL = None ∧ e = KeyError).
Proof.
  unfold app_label_of.
  destruct (labels (metadata job)) as [job_labels|].
  - destruct (job_labels !! JOB_LABEL) as [v|] eqn:Hv.
    + split; [done|]. intros [[? _]|(ls & [= <-] & ? & _)]; congruence.
    + split.
      * intros [= <-]. right. by exists job_labels.
      * intros [[? _]|(ls & _ & _ & ->)]; done.
  - split.
    + intros [= <-]. by left.
    + intros [[_ ->]|(ls & ? & _)]; done.
Qed.

(** After [if app_label not in labels: labels[app_label] = []] the key is
    there. *)
Lemma ensured_get groups app :
  is_Some (PyDict.get (if negb (PyDict.contains groups app)
                       then PyDict.set groups app [] else groups) app).
Proof.
  destruct (PyDict.contains groups app) eqn:Hin; simpl.
  - by apply PyDictFacts.contains_true.
  - rewrite PyDictFacts.get_set_eq. by eexists.
Qed.

Lemma get_app_labels_from_raise jobs :
  ∀ acc e,
    get_app_labels_from JOB_LABEL acc jobs = Raise e ↔
    ∃ pre job post,
      jobs = pre ++ job :: post
      ∧ Forall (has_label JOB_LABEL) pre
      ∧ app_label_of JOB_LABEL job = Raise e.
Proof.
  induction jobs as [|job jobs IH]; intros acc e; simpl.
  - split; [done|]. intros (pre & job & post & Heq & _).
    by destruct pre.
  - destruct (app_label_of JOB_LABEL job) as [a|e0] eqn:Hlabel.
    + destruct (ensured_get acc a) as [data Hdata]. rewrite Hdata, IH.
      split.
      * intros (pre & job' & post & -> & Hpre & Hraise).
        exists (job :: pre), job', post. split; [done|]. split; [|done].
        constructor; [by apply (app_label_of_has_label _ a) | done].
      * intros (pre & job' & post & Heq & Hpre & Hraise).
        destruct pre as [|job0 pre]; simpl in Heq.
        { injection Heq as <- _. congruence. }
        injection Heq as <- ->. apply Forall_cons in Hpre as [_ Hpre].
        by exists pre, job', post.
    + split.
      * intros [= <-]. exists [], job, jobs. by split.
      * intros (pre & job' & post & Heq & Hpre & Hraise).
        destruct pre as [|job0 pre]; simpl in Heq.
        { injection Heq as <- _. congruence. }
        injection Heq as <- _. apply Forall_cons in Hpre as [Hjob _].
        destruct (has_label_app_label_of JOB_LABEL job Hjob) as [a Ha].
        congruence.
Qed.

Lemma get_app_labels_from_labelled jobs :
  ∀ acc groups,
    get_app_labels_from JOB_LABEL acc jobs = Ok groups →
    Forall (has_label JOB_LABEL) jobs.
Proof.
  induction jobs as [|job jobs IH]; intros acc groups; simpl; [done|].
  destruct (app_label_of JOB_LABEL job) as [a|e] eqn:Hlabel; [|done].
  destruct (PyDict.get _ a) as [data|]; [|done].
  intros Hrun. constructor; [by apply (app_label_of_has_label _ a)|].
  by apply (IH _ _ Hrun).
Qed.

Lemma group_sizes_set_fresh groups app data :
  PyDict.get groups app = None →
  group_sizes (PyDict.set groups app data)
  = (group_sizes groups + length data)%nat.
Proof.
  intros Hfresh. rewrite PyDictFacts.set_fresh by done.
  unfold group_sizes, PyDict.values. rewrite fmap_app, sum_list_with_app.
  simpl. lia.
Qed.

Lemma group_sizes_set_present groups app data data' :
  PyDict.get groups app = Some data →
  (group_sizes (PyDict.set groups app data') + length data
   = group_sizes groups + length data')%nat.
Proof.
  unfold group_sizes, PyDict.values.
  induction groups as [|[k v] groups IH]; simpl; [done|].
  destruct (decide (k = app)) as [->|Hne]; csimpl.
  - intros [= ->]. lia.
  - intros Hget. specialize (IH Hget). lia.
Qed.

Lemma get_app_labels_from_sizes jobs :
  ∀ acc groups,
    get_app_labels_from JOB_LABEL acc jobs = Ok groups →
    group_sizes groups = (group_sizes acc + length jobs)%nat.
Proof.
  induction jobs as [|job jobs IH]; intros acc groups; simpl.
  - intros [= <-]. lia.
  - destruct (app_label_of JOB_LABEL job) as [a|e]; [|done].
    destruct (PyDict.contains acc a) eqn:Hin; simpl.
    + destruct (PyDict.get acc a) as [data|] eqn:Hdata; [|done].
      intros Hrun. rewrite (IH _ _ Hrun).
      pose proof (group_sizes_set_present acc a data (data ++ [job]) Hdata)
        as Hsize.
      rewrite length_app in Hsize. cbn [length] in Hsize. lia.
    + apply PyDictFacts.contains_false in Hin.
      rewrite PyDictFacts.get_set_eq. intros Hrun. rewrite (IH _ _ Hrun).
      pose proof (group_sizes_set_present (PyDict.set acc a []) a []
                    ([] ++ [job]) (PyDictFacts.get_set_eq _ _ _)) as Hsize.
      rewrite (group_sizes_set_fresh acc a [] Hin) in Hsize.
      cbn [length app] in Hsize. cbn [app]. lia.
Qed.

Lemma kubernetes_jobs_total_yields jobs groups :
  get_app_labels JOB_LABEL jobs = Ok groups →
  kubernetes_jobs_total JOB_LABEL jobs
  = ((λ '(label, data), (Z.of_nat (length data), [label])) <$> groups,
     Ok tt).
Proof. unfold kubernetes_jobs_total, PyDict.items. by intros ->. Qed.

Lemma yields_values_sum groups :
  foldr Z.add 0
    (((λ '(label, data), (Z.of_nat (length data), [label]))
        <$> groups).*1 : list Z)
  = Z.of_nat (group_sizes groups).
Proof.
  unfold group_sizes, PyDict.values.
  induction groups as [|[label data] groups IH]; csimpl; [done|].
  rewrite IH. lia.
Qed.

Lemma yields_labels groups :
  ((λ '(label, data), (Z.of_nat (length data), [label]))
     <$> groups).*2
  = (λ label : string, [label]) <$> PyDict.keys groups.
Proof.
  unfold PyDict.keys.
  induction groups as [|[label data] groups IH]; csimpl; [done|].
  by rewrite IH.
Qed.

(** X1: when [get_app_labels] returns, its dictionary is the partition of
    the jobs by label value: the keys are distinct, the entries are exactly
    the non-empty label groups, every job is in the group of its own label,
    and the groups together hold as many jobs as were passed in. *)
Theorem get_app_labels_partition jobs groups :
  get_app_labels JOB_LABEL jobs = Ok groups →
  NoDup (PyDict.keys groups)
  ∧ (∀ app data,
       (app, data) ∈ groups ↔
       data = group JOB_LABEL app jobs ∧ data ≠ [])
  ∧ (∀ job, job ∈ jobs →
       ∃ app, app_label_of JOB_LABEL job = Ok app
              ∧ job ∈ group JOB_LABEL app jobs
              ∧ (app, group JOB_LABEL app jobs) ∈ groups)
  ∧ group_sizes groups = length jobs.
Proof.
  intros Hrun. split; [|split; [|split]].
  - apply (get_app_labels_from_nodup JOB_LABEL jobs [] groups Hrun).
    apply NoDup_nil_2.
  - intros app data. split.
    + by apply get_app_labels_items.
    + intros [-> Hne]. by apply get_app_labels_group.
  - intros job Hin.
    pose proof (get_app_labels_from_labelled _ _ _ Hrun) as Hall.
    destruct (has_label_app_label_of JOB_LABEL job) as [app Happ].
    { by apply (proj1 (Forall_forall _ _) Hall). }
    assert (job ∈ group JOB_LABEL app jobs) as Hmember.
    { unfold group. by apply list_elem_of_filter. }
    exists app. split; [done|]. split; [done|].
    apply get_app_labels_group; [done|]. intros Hnil.
    rewrite Hnil in Hmember. by apply not_elem_of_nil in Hmember.
  - by rewrite (get_app_labels_from_sizes _ _ _ Hrun).
Qed.

(** X2: [get_app_labels] raises exactly at the first job without the
    classification label, with that job's error: a [TypeError] when its
    labels are null, a [KeyError] when they are a mapping without the key;
    it returns exactly when every job carries the label. *)
Theorem get_app_labels_first_unlabelled jobs :
  (∀ e, get_app_labels JOB_LABEL jobs = Raise e ↔
        ∃ pre job post,
          jobs = pre ++ job :: post
          ∧ Forall (has_label JOB_LABEL) pre
          ∧ ((labels (metadata job) = None ∧ e = TypeError)
             ∨ (∃ job_labels, labels (metadata job) = Some job_labels
                              ∧ job_labels !! JOB_LABEL = None
                              ∧ e = KeyError)))
  ∧ ((∃ groups, get_app_labels JOB_LABEL jobs = Ok groups) ↔
     Forall (has_label JOB_LABEL) jobs).
Proof.
  split.
  - intros e. unfold get_app_labels. rewrite get_app_labels_from_raise.
    split; intros (pre & job & post & Heq & Hpre & Hraise);
      exists pre, job, post; (split; [done|]); (split; [done|]);
      by apply app_label_of_raise.
  - split.
    + intros [groups Hrun]. by apply (get_app_labels_from_labelled _ _ _ Hrun).
    + apply get_app_labels_total.
Qed.

(** X3: when [kubernetes_jobs_total] returns it has yielded one pair per
    label value that occurs, the number of jobs with that value and the
    one-element label list; the label lists are distinct, no count is zero,
    and the counts add up to the number of jobs. *)
Theorem kubernetes_jobs_total_counts jobs :
  (kubernetes_jobs_total JOB_LABEL jobs).2 = Ok tt →
  (∀ value app_labels,
     (value, app_labels) ∈ (kubernetes_jobs_total JOB_LABEL jobs).1 ↔
     ∃ app, app_labels = [app]
            ∧ group JOB_LABEL app jobs ≠ []
            ∧ value = Z.of_nat (length (group JOB_LABEL app jobs)))
  ∧ NoDup ((kubernetes_jobs_total JOB_LABEL jobs).1.*2)
  ∧ Forall (λ value, 1 ≤ value) ((kubernetes_jobs_total JOB_LABEL jobs).1.*1)
  ∧ foldr Z.add 0 ((kubernetes_jobs_total JOB_LABEL jobs).1.*1)
    = Z.of_nat (length jobs).
Proof.
  destruct (get_app_labels JOB_LABEL jobs) as [groups|e] eqn:Hrun.
  2:{ unfold kubernetes_jobs_total. by rewrite Hrun. }
  rewrite (kubernetes_jobs_total_yields _ _ Hrun). intros _. simpl.
  assert (∀ value app_labels,
            (value, app_labels)
              ∈ (λ '(label, data), (Z.of_nat (length data), [label]))
                  <$> groups ↔
            ∃ app, app_labels = [app]
                   ∧ group JOB_LABEL app jobs ≠ []
                   ∧ value = Z.of_nat (length (group JOB_LABEL app jobs)))
    as Hmem.
  { intros value app_labels. rewrite list_elem_of_fmap. split.
    - intros ([app data] & [= -> ->] & Hin).
      destruct (get_app_labels_items _ _ _ _ _ Hrun Hin) as [-> Hne].
      by exists app.
    - intros (app & -> & Hne & ->).
      exists (app, group JOB_LABEL app jobs). split; [done|].
      by apply get_app_labels_group. }
  split; [done|]. split; [|split].
  - rewrite yields_labels. apply NoDup_fmap_2.
    + by intros a b [= ->].
    + apply (get_app_labels_from_nodup JOB_LABEL jobs [] groups Hrun).
      apply NoDup_nil_2.
  - apply Forall_forall. intros value Hin.
    apply list_elem_of_fmap in Hin as ([v l] & -> & Hin).
    apply Hmem in Hin as (app & _ & Hne & ->). simpl.
    destruct (group JOB_LABEL app jobs); [done|]. simpl length. lia.
  - rewrite yields_values_sum.
    by rewrite (get_app_labels_from_sizes _ _ _ Hrun).
Qed.

End grouping_more.

(** ** More about the histogram *)

Section histogram_more.
Variable JOB_LABEL : string.
Implicit Types (jobs : list V1Job) (groups : list (string * list V1Job))
  (b : bucket) (q : Q).

Lemma filter_Forall {A} (P : A → Prop) `{∀ x, Decision (P x)} (l : list A) :
  Forall P l → filter P l = l.
Proof.
  induction 1 as [|x l Hx _ IH]; [done|].
  by rewrite filter_cons, decide_True, IH.
Qed.

Lemma filter_Forall_not {A} (P : A → Prop) `{∀ x, Decision (P x)}
    (l : list A) :
  Forall (λ x, ¬ P x) l → filter P l = [].
Proof.
  induction 1 as [|x l Hx _ IH]; [done|].
  by rewrite filter_cons, decide_False, IH.
Qed.

(** Filtering a sorted list by an upward closed predicate keeps a suffix. *)
Lemma filter_sorted_suffix {A} (R : relation A) (P : A → Prop)
    `{∀ x, Decision (P x)} (l : list A) :
  (∀ x y, R x y → P x → P y) →
  StronglySorted R l → filter P l `suffix_of` l.
Proof.
  intros Hup. induction 1 as [|x l Hsorted IH Hx]; [done|].
  rewrite filter_cons. destruct (decide (P x)) as [HP|HP].
  - rewrite filter_Forall; [done|].
    eapply Forall_impl; [exact Hx|]. intros y Hy. by apply (Hup x).
  - by apply suffix_cons_r.
Qed.

Lemma lt_float_mono q b1 b2 :
  bucket_le b1 b2 → lt_float q b1 = true → lt_float q b2 = true.
Proof. rewrite !lt_float_below. apply below_mono. Qed.

(** X4: the buckets yielded for a duration are a suffix of the configured
    list that always ends with ["+Inf"]: with a bucket every larger one is
    yielded.  A duration below 10 gets all nine buckets, a duration of 7200
    or more only ["+Inf"]. *)
Theorem find_applicable_buckets_suffix (duration : Q) :
  find_applicable_buckets duration `suffix_of` (DURATION_BUCKETS ++ [Inf])
  ∧ last (find_applicable_buckets duration) = Some Inf
  ∧ (∀ b1 b2,
       b1 ∈ find_applicable_buckets duration →
       b2 ∈ DURATION_BUCKETS ++ [Inf] → bucket_le b1 b2 →
       b2 ∈ find_applicable_buckets duration)
  ∧ ((duration < inject_Z 10)%Q →
     find_applicable_buckets duration = DURATION_BUCKETS ++ [Inf])
  ∧ ((inject_Z 7200 <= duration)%Q →
     find_applicable_buckets duration = [Inf]).
Proof.
  split; [|split; [|split; [|split]]].
  - apply (filter_sorted_suffix bucket_le);
      [apply lt_float_mono | apply sorted_duration_buckets].
  - unfold find_applicable_buckets. cbv zeta.
    rewrite filter_app, (filter_Forall _ [Inf]) by by repeat constructor.
    by rewrite last_snoc.
  - intros b1 b2 H1 H2 Hle.
    apply elem_of_find_applicable_buckets.
    apply elem_of_find_applicable_buckets in H1 as [H1 _].
    split; [by apply (below_mono _ b1) | done].
  - intros Hlt. apply filter_Forall.
    pose proof sorted_duration_buckets as Hsorted.
    apply StronglySorted_inv in Hsorted as [_ Hrest].
    constructor; [by apply lt_float_below|].
    eapply Forall_impl; [exact Hrest|]. intros b Hb.
    by apply (lt_float_mono _ (Seconds 10)), lt_float_below.
  - intros Hge. unfold find_applicable_buckets. cbv zeta.
    rewrite filter_app, (filter_Forall _ [Inf]) by by repeat constructor.
    rewrite filter_Forall_not; [done|].
    assert (∀ n, n ≤ 7200 → ¬ lt_float duration (Seconds n) = true) as Hout.
    { intros n Hn Hlt. apply lt_float_below in Hlt. simpl in Hlt.
      apply (Qlt_irrefl duration).
      apply Qlt_le_trans with (inject_Z n); [done|].
      apply Qle_trans with (inject_Z 7200); [|done].
      by rewrite <- Zle_Qle. }
    unfold DURATION_BUCKETS. repeat constructor; apply Hout; lia.
Qed.

Lemma count_below_bounds b (ds : list Q) :
  0 ≤ count_below b ds ≤ Z.of_nat (length ds).
Proof.
  unfold count_below. pose proof (length_filter
    (λ q, lt_float q b = true) ds). lia.
Qed.

(** X5: in a yielded histogram the count of each bucket is the number of
    jobs of the label group whose duration is strictly below the boundary;
    it lies between zero and the size of the group. *)
Theorem histogram_bucket_counts jobs (buckets : list (string * Z))
    (sum : Q) (app_labels : list string) :
  (buckets, sum, app_labels)
    ∈ (kubernetes_job_duration_seconds JOB_LABEL jobs).1 →
  ∃ app ds,
    app_labels = [app]
    ∧ Forall2 lasts (group JOB_LABEL app jobs) ds
    ∧ buckets = (λ b, (str b, count_below b ds))
                  <$> (DURATION_BUCKETS ++ [Inf])
    ∧ Forall (λ count, 0 ≤ count
                       ≤ Z.of_nat (length (group JOB_LABEL app jobs)))
             (buckets.*2).
Proof.
  intros Hin.
  apply kubernetes_job_duration_seconds_emitted in Hin
    as (app & ds & -> & _ & Hall & -> & _).
  exists app, ds. split; [done|]. split; [done|]. split; [done|].
  rewrite <- list_fmap_compose. apply Forall_fmap, Forall_forall.
  intros b _. simpl. rewrite (Forall2_length _ _ _ Hall).
  apply count_below_bounds.
Qed.

(** When the generator returns it has yielded the histogram of every
    group, in the order of the groups. *)
Lemma histogram_of_groups_all groups :
  (histogram_of_groups (DURATION_BUCKETS ++ [Inf]) groups).2 = Ok tt →
  Forall2 (λ '(app, data) y,
             histogram_of_group (DURATION_BUCKETS ++ [Inf]) app data = Ok y)
    groups (histogram_of_groups (DURATION_BUCKETS ++ [Inf]) groups).1.
Proof.
  induction groups as [|[app data] groups IH]; cbn [histogram_of_groups].
  - intros _. constructor.
  - destruct (histogram_of_group _ app data) as [y|e] eqn:Hy; [|done].
    destruct (histogram_of_groups _ groups) as [ys r]. simpl in *.
    intros Hr. constructor; [done | by apply IH].
Qed.

Lemma histogram_of_group_observation (app : string) (data : list V1Job) y :
  histogram_of_group (DURATION_BUCKETS ++ [Inf]) app data = Ok y →
  observation_count y = (Z.of_nat (length data), [app]).
Proof.
  intros Hy. pose proof (histogram_of_group_spec app data) as Hspec.
  rewrite Hy in Hspec. destruct y as [[buckets sum] app_labels].
  destruct Hspec as (ds & Hall & -> & _ & ->).
  unfold observation_count. cbn [fst snd].
  rewrite fmap_app. cbn [fmap list_fmap]. rewrite last_snoc.
  cbn [fmap option_fmap option_map default snd].
  by rewrite count_below_Inf, (Forall2_length _ _ _ Hall).
Qed.

Lemma observations_of_groups groups
    (ys : list (list (string * Z) * Q * list string)) :
  Forall2 (λ '(app, data) y,
             histogram_of_group (DURATION_BUCKETS ++ [Inf]) app data = Ok y)
    groups ys →
  observation_count <$> ys
  = (λ '(label, data), (Z.of_nat (length data), [label])) <$> groups.
Proof.
  induction 1 as [|[app data] y groups ys Hy _ IH]; [done|].
  csimpl. by rewrite IH, (histogram_of_group_observation app data y Hy).
Qed.

Lemma duration_seconds_observations jobs :
  (kubernetes_job_duration_seconds JOB_LABEL jobs).2 = Ok tt →
  observation_count <$> (kubernetes_job_duration_seconds JOB_LABEL jobs).1
  = (kubernetes_jobs_total JOB_LABEL jobs).1
  ∧ (kubernetes_jobs_total JOB_LABEL jobs).2 = Ok tt.
Proof.
  unfold kubernetes_job_duration_seconds, kubernetes_jobs_total.
  cbv zeta. unfold PyDict.items.
  destruct (get_app_labels JOB_LABEL jobs) as [groups|e]; [|done].
  intros Hret. split; [|done]. cbn [fst].
  apply observations_of_groups. by apply histogram_of_groups_all.
Qed.

(** X6: when [kubernetes_job_duration_seconds] returns, its histograms line
    up with the pairs of [kubernetes_jobs_total] on the same jobs: the same
    labels in the same order, and the ["+Inf"] count of each histogram is
    the count of the pair. *)
Theorem histogram_counts_match_totals jobs :
  (kubernetes_job_duration_seconds JOB_LABEL jobs).2 = Ok tt →
  observation_count <$> (kubernetes_job_duration_seconds JOB_LABEL jobs).1
  = (kubernetes_jobs_total JOB_LABEL jobs).1
  ∧ (kubernetes_jobs_total JOB_LABEL jobs).2 = Ok tt.
Proof.
  unfold kubernetes_job_duration_seconds, kubernetes_jobs_total.
  cbv zeta. unfold PyDict.items.
  destruct (get_app_labels JOB_LABEL jobs) as [groups|e]; [|done].
  intros Hret. split; [|done]. cbn [fst].
  apply observations_of_groups. by apply histogram_of_groups_all.
Qed.

End histogram_more.

(** ** More about the cache across cycles *)

Section cache_more.
Variable START : datetime.
Variable NAMESPACE : string.
Variable JOB_LABEL : string.
Implicit Types (job : V1Job) (g : Globals) (api : string → list_response)
  (cache : list (string * V1Job)).

(** [cache_job] leaves the cache alone or appends this one job. *)
Lemma cache_job_appends job g :
  JOB_CACHE (cache_job JOB_LABEL job g).1 = JOB_CACHE g
  ∨ (cacheable JOB_LABEL job (JOB_CACHE g)
     ∧ JOB_CACHE (cache_job JOB_LABEL job g).1
       = JOB_CACHE g ++ [(name (metadata job), job)]).
Proof.
  destruct (cacheable_decidable JOB_LABEL job g) as [Hc|Hc].
  - right. split; [done|]. rewrite (cache_job_cacheable _ _ _ Hc). simpl.
    destruct Hc as (Habsent & _). by apply PyDictFacts.set_fresh.
  - left. by rewrite (cache_job_not_cacheable _ _ _ Hc).
Qed.

Lemma cache_job_well_formed job g :
  cache_well_formed (JOB_CACHE g) →
  cache_well_formed (JOB_CACHE (cache_job JOB_LABEL job g).1).
Proof.
  intros [Hnd Hown].
  destruct (cache_job_appends job g) as [->|[Hc ->]]; [done|].
  destruct Hc as (Habsent & Hactive & _). split.
  - unfold PyDict.keys. rewrite fmap_app. apply NoDup_app.
    split; [done|]. split; [|apply NoDup_singleton].
    intros key Hin Hkey. apply list_elem_of_singleton in Hkey as ->.
    by apply PyDictFacts.get_None_keys in Habsent.
  - intros key stored Hin. apply elem_of_app in Hin as [Hin|Hin].
    + by apply Hown.
    + by apply list_elem_of_singleton in Hin as [= -> ->].
Qed.

Lemma cache_job_prefix job g :
  JOB_CACHE g `prefix_of` JOB_CACHE (cache_job JOB_LABEL job g).1.
Proof.
  destruct (cache_job_appends job g) as [->|[_ ->]]; [done|].
  by apply prefix_app_r.
Qed.

(** The caching loop followed through, for any property of the cache that
    one [cache_job] keeps. *)
Lemma retrieve_jobs_preserves (P : list (string * V1Job) → Prop)
    namespace api g :
  (∀ job s, P (JOB_CACHE s) → P (JOB_CACHE (cache_job JOB_LABEL job s).1)) →
  P (JOB_CACHE g) →
  P (JOB_CACHE (retrieve_jobs START JOB_LABEL namespace api g).1).
Proof.
  intros Hstep Hg. rewrite retrieve_jobs_state.
  by apply (py_for_preserves (λ s, P (JOB_CACHE s))).
Qed.

Lemma scrape_preserves (P : list (string * V1Job) → Prop) api g :
  (∀ job s, P (JOB_CACHE s) → P (JOB_CACHE (cache_job JOB_LABEL job s).1)) →
  P (JOB_CACHE g) →
  P (JOB_CACHE (scrape START NAMESPACE JOB_LABEL api g).1).
Proof.
  intros Hstep Hg. rewrite scrape_cache. by apply retrieve_jobs_preserves.
Qed.

Lemma main_loop_preserves (P : list (string * V1Job) → Prop)
    (apis : list (string → list_response)) g :
  (∀ job s, P (JOB_CACHE s) → P (JOB_CACHE (cache_job JOB_LABEL job s).1)) →
  P (JOB_CACHE g) →
  P (JOB_CACHE (main_loop START NAMESPACE JOB_LABEL apis g).1).
Proof.
  intros Hstep Hg. unfold main_loop.
  apply (py_for_preserves (λ s, P (JOB_CACHE s))); [|done].
  intros api s Hs. by apply scrape_preserves.
Qed.

Lemma get_prefix cache cache' key (stored : V1Job) :
  cache `prefix_of` cache' →
  PyDict.get cache key = Some stored → PyDict.get cache' key = Some stored.
Proof.
  intros [rest ->]. induction cache as [|[k v] cache IH]; simpl; [done|].
  by destruct (decide (k = key)).
Qed.

(** X7: the cache keeps its shape through every operation and any number
    of cycles: no name is stored twice, every record sits under its own
    name, and no record shows a job that was active when stored.  So the
    jobs that a cycle works on have pairwise distinct names: no job is
    counted twice, however often it was fetched. *)
Theorem cache_well_formed_invariant :
  cache_well_formed (JOB_CACHE initial)
  ∧ (∀ job g,
       cache_well_formed (JOB_CACHE g) →
       cache_well_formed (JOB_CACHE (cache_job JOB_LABEL job g).1))
  ∧ (∀ api g,
       cache_well_formed (JOB_CACHE g) →
       cache_well_formed
         (JOB_CACHE (scrape START NAMESPACE JOB_LABEL api g).1))
  ∧ (∀ apis g,
       cache_well_formed (JOB_CACHE g) →
       cache_well_formed
         (JOB_CACHE (main_loop START NAMESPACE JOB_LABEL apis g).1))
  ∧ (∀ api g g1 jobs,
       cache_well_formed (JOB_CACHE g) →
       retrieve_jobs START JOB_LABEL NAMESPACE api g = (g1, Ok jobs) →
       NoDup ((λ job, name (metadata job)) <$> jobs)
       ∧ Forall (λ job, active (status job) ≠ Some 1) jobs).
Proof.
  split; [|split; [|split; [|split]]].
  - split; [apply NoDup_nil_2|]. intros key job Hin.
    by apply not_elem_of_nil in Hin.
  - apply cache_job_well_formed.
  - intros api g. apply scrape_preserves. apply cache_job_well_formed.
  - intros apis g. apply main_loop_preserves. apply cache_job_well_formed.
  - intros api g g1 jobs Hwf Hrun.
    pose proof (retrieve_jobs_preserves cache_well_formed NAMESPACE api g
                  cache_job_well_formed Hwf) as [Hnd Hown].
    rewrite Hrun in Hnd, Hown. simpl in Hnd, Hown.
    assert (jobs = eligible START (JOB_CACHE g1)) as ->
      by (by apply retrieve_jobs_returned in Hrun as (_ & _ & ?)).
    assert ((λ job, name (metadata job)) <$> PyDict.values (JOB_CACHE g1)
            = PyDict.keys (JOB_CACHE g1)) as Hnames.
    { unfold PyDict.values, PyDict.keys. rewrite <- list_fmap_compose.
      apply list_fmap_ext. intros i [key job] Hi. simpl.
      apply (Hown key job). by apply list_elem_of_lookup_2 in Hi. }
    split.
    + apply (sublist_NoDup _
               ((λ job, name (metadata job))
                  <$> PyDict.values (JOB_CACHE g1))).
      * by rewrite Hnames.
      * apply fmap_sublist. apply sublist_filter.
    + apply Forall_forall. intros job Hin.
      apply list_elem_of_filter in Hin as [_ Hin].
      apply list_elem_of_fmap in Hin as ([key job'] & -> & Hin).
      by apply (Hown key job').
Qed.

(** X8: the cache only grows, at its end: through [cache_job], through a
    whole cycle and through any number of cycles, whether or not they
    raise, the old cache is a prefix of the new one, so a stored record is
    never replaced, moved or dropped.  What a cycle adds are jobs it
    fetched. *)
Theorem cache_only_grows :
  (∀ job g, JOB_CACHE g `prefix_of` JOB_CACHE (cache_job JOB_LABEL job g).1)
  ∧ (∀ api g,
       JOB_CACHE g
         `prefix_of` JOB_CACHE (scrape START NAMESPACE JOB_LABEL api g).1)
  ∧ (∀ apis g,
       JOB_CACHE g
         `prefix_of`
         JOB_CACHE (main_loop START NAMESPACE JOB_LABEL apis g).1)
  ∧ (∀ apis g key (stored : V1Job),
       PyDict.get (JOB_CACHE g) key = Some stored →
       PyDict.get (JOB_CACHE (main_loop START NAMESPACE JOB_LABEL apis g).1)
         key = Some stored)
  ∧ (∀ api g job,
       job ∈ PyDict.values
               (JOB_CACHE (scrape START NAMESPACE JOB_LABEL api g).1) →
       job ∈ PyDict.values (JOB_CACHE g) ∨ job ∈ fetched api NAMESPACE).
Proof.
  assert (∀ c job s,
            c `prefix_of` JOB_CACHE s →
            c `prefix_of` JOB_CACHE (cache_job JOB_LABEL job s).1) as Hstep.
  { intros c job s Hc. etrans; [exact Hc | apply cache_job_prefix]. }
  assert (∀ apis g,
            JOB_CACHE g
              `prefix_of`
              JOB_CACHE (main_loop START NAMESPACE JOB_LABEL apis g).1)
    as Hloop.
  { intros apis g.
    apply (main_loop_preserves (λ c, JOB_CACHE g `prefix_of` c));
      [intros job s; apply Hstep | reflexivity]. }
  split; [|split; [|split; [|split]]].
  - apply cache_job_prefix.
  - intros api g.
    apply (scrape_preserves (λ c, JOB_CACHE g `prefix_of` c));
      [intros job s; apply Hstep | reflexivity].
  - done.
  - intros apis g key stored. apply get_prefix, Hloop.
  - intros api g. rewrite scrape_cache, retrieve_jobs_state.
    assert (∀ data s (job : V1Job),
              job ∈ PyDict.values
                      (JOB_CACHE (py_for data (cache_job JOB_LABEL) s).1) →
              job ∈ PyDict.values (JOB_CACHE s) ∨ job ∈ data) as Hfrom.
    { induction data as [|x data IH]; intros s job; [by left|].
      cbn [py_for]. unfold mbind, py_bind.
      pose proof (cache_job_appends x s) as Happ.
      destruct (cache_job JOB_LABEL x s) as [s' [[]|e]]; simpl in *.
      - intros Hin. destruct (IH s' job Hin) as [Hin'|Hin'].
        + destruct Happ as [Heq|[_ Heq]]; rewrite Heq in Hin'; [by left|].
          unfold PyDict.values in Hin'. rewrite fmap_app in Hin'.
          apply elem_of_app in Hin' as [?|Hx]; [by left|].
          apply list_elem_of_singleton in Hx as ->. right. by left.
        + right. by right.
      - intros Hin.
        destruct Happ as [Heq|[_ Heq]]; rewrite Heq in Hin; [by left|].
        unfold PyDict.values in Hin. rewrite fmap_app in Hin.
        apply elem_of_app in Hin as [?|Hx]; [by left|].
        apply list_elem_of_singleton in Hx as ->. right. by left. }
    intros job. apply Hfrom.
Qed.

End cache_more.

(** ** More about whole cycles *)

Section cycle_more.
Variable START : datetime.
Variable NAMESPACE : string.
Variable JOB_LABEL : string.
Implicit Types (job : V1Job) (g h : Globals)
  (api : string → list_response) (data : list V1Job).

Lemma cache_job_cached job g :
  is_Some (PyDict.get (JOB_CACHE g) (name (metadata job))) →
  cache_job JOB_LABEL job g = (g, Ok tt).
Proof.
  intros Hin. rewrite cache_job_cases.
  by apply PyDictFacts.contains_true in Hin as ->.
Qed.

Lemma py_for_cache_job_cached data g :
  (∀ job, job ∈ data →
     is_Some (PyDict.get (JOB_CACHE g) (name (metadata job)))) →
  py_for data (cache_job JOB_LABEL) g = (g, Ok tt).
Proof.
  induction data as [|job data IH]; intros Hall; [done|].
  cbn [py_for]. unfold mbind, py_bind.
  rewrite cache_job_cached by (apply Hall; by left).
  apply IH. intros job' Hin. apply Hall. by right.
Qed.

Lemma py_for_cache_job_keeps_keys data g key :
  is_Some (PyDict.get (JOB_CACHE g) key) →
  is_Some (PyDict.get
             (JOB_CACHE (py_for data (cache_job JOB_LABEL) g).1) key).
Proof.
  intros [stored Hstored]. exists stored.
  by apply py_for_cache_job_keeps.
Qed.

(** A second run of the caching loop over the same jobs, on any cache that
    has the names the first run left, stores nothing. *)
Lemma py_for_cache_job_again data :
  ∀ g g',
    py_for data (cache_job JOB_LABEL) g = (g', Ok tt) →
    ∀ h, (∀ key, is_Some (PyDict.get (JOB_CACHE g') key) →
                 is_Some (PyDict.get (JOB_CACHE h) key)) →
         py_for data (cache_job JOB_LABEL) h = (h, Ok tt).
Proof.
  induction data as [|job data IH]; intros g g' Hrun h Hkeys; [done|].
  cbn [py_for] in *. unfold mbind, py_bind in *.
  destruct (cache_job JOB_LABEL job g) as [g1 [[]|e]] eqn:Hjob; [|done].
  assert (cache_job JOB_LABEL job h = (h, Ok tt)) as ->.
  { destruct (PyDict.get (JOB_CACHE h) (name (metadata job)))
      as [stored|] eqn:Hh; [apply cache_job_cached; by exists stored|].
    assert (PyDict.get (JOB_CACHE g1) (name (metadata job)) = None) as Hg1.
    { destruct (PyDict.get (JOB_CACHE g1) _) as [stored|] eqn:Hin; [|done].
      pose proof (py_for_cache_job_keeps_keys data g1 _
                    (ex_intro _ stored Hin)) as Hin'.
      rewrite Hrun in Hin'. apply Hkeys in Hin'. rewrite Hh in Hin'.
      by destruct Hin'. }
    rewrite cache_job_cases in Hjob. rewrite cache_job_cases.
    apply PyDictFacts.contains_false in Hh. rewrite Hh.
    destruct (PyDict.contains (JOB_CACHE g) _) eqn:Hin;
      [|destruct (py_eq_int _ _); [done|]].
    - injection Hjob as <-. apply PyDictFacts.contains_false in Hg1.
      congruence.
    - destruct (labels (metadata job)) as [job_labels|]; [|done].
      destruct (is_none _); [done|].
      injection Hjob as <-. simpl in Hg1.
      by rewrite PyDictFacts.get_set_eq in Hg1. }
  by apply (IH g1 g').
Qed.

(** After a completed cycle, a cycle whose caching loop stores nothing
    completes with the same state. *)
Lemma scrape_settled api api' g g1 :
  scrape START NAMESPACE JOB_LABEL api g = (g1, Ok tt) →
  api' NAMESPACE ≠ OtherError →
  py_for (fetched api' NAMESPACE) (cache_job JOB_LABEL) g1 = (g1, Ok tt) →
  scrape START NAMESPACE JOB_LABEL api' g1 = (g1, Ok tt).
Proof.
  intros Hprev Hapi Hloop.
  rewrite scrape_cases,
    (retrieve_jobs_of_loop START JOB_LABEL NAMESPACE api' g1 g1 Hapi Hloop).
  rewrite scrape_cases in Hprev.
  destruct (retrieve_jobs _ _ _ _ g) as [g0 [jobs0|e]] eqn:Hrun; [|done].
  apply retrieve_jobs_returned in Hrun as (_ & _ & ->).
  set (jobs := eligible START (JOB_CACHE g0)) in *.
  destruct (kubernetes_jobs_total JOB_LABEL jobs).2 eqn:H1; [|done].
  destruct (kubernetes_jobs_total JOB_LABEL (filter _ jobs)).2 eqn:H2;
    [|done].
  destruct (kubernetes_job_duration_seconds JOB_LABEL (filter _ jobs)).2
    eqn:H3; [|done].
  injection Hprev as <-. simpl. fold jobs.
  rewrite H1, H2, H3. by rewrite publish_idempotent.
Qed.

Lemma scrape_loop_returned api g g1 :
  scrape START NAMESPACE JOB_LABEL api g = (g1, Ok tt) →
  api NAMESPACE ≠ OtherError
  ∧ ∃ g0, py_for (fetched api NAMESPACE) (cache_job JOB_LABEL) g
          = (g0, Ok tt)
          ∧ JOB_CACHE g1 = JOB_CACHE g0.
Proof.
  rewrite scrape_cases.
  destruct (retrieve_jobs _ _ _ _ g) as [g0 [jobs0|e]] eqn:Hrun; [|done].
  apply retrieve_jobs_returned in Hrun as (Hapi & Hloop & ->).
  destruct (kubernetes_jobs_total JOB_LABEL _).2; [|done].
  destruct (kubernetes_jobs_total JOB_LABEL (filter _ _)).2; [|done].
  destruct (kubernetes_job_duration_seconds JOB_LABEL (filter _ _)).2;
    [|done].
  intros [= <-]. split; [done|]. by exists g0.
Qed.

(** X9: polling again changes nothing.  After a completed cycle, a cycle
    that fetches the same jobs, or any jobs whose names are all cached,
    completes and leaves the cache and the published metrics exactly as
    they were: a job observed by many polls is aggregated once.  The list
    call of the later cycle returns jobs or raises [ApiException]; an
    exception that [retrieve_jobs] does not catch leaves the cycle. *)
Theorem scrape_repoll_idempotent api g g1 :
  scrape START NAMESPACE JOB_LABEL api g = (g1, Ok tt) →
  scrape START NAMESPACE JOB_LABEL api g1 = (g1, Ok tt)
  ∧ ∀ api',
      api' NAMESPACE ≠ OtherError →
      (∀ job, job ∈ fetched api' NAMESPACE →
         is_Some (PyDict.get (JOB_CACHE g1) (name (metadata job)))) →
      scrape START NAMESPACE JOB_LABEL api' g1 = (g1, Ok tt).
Proof.
  intros Hprev. split.
  - destruct (scrape_loop_returned api g g1 Hprev)
      as (Hapi & g0 & Hloop & Hcache).
    apply (scrape_settled api api g g1 Hprev Hapi).
    apply (py_for_cache_job_again _ g g0 Hloop).
    intros key. by rewrite Hcache.
  - intros api' Hapi Hall. apply (scrape_settled api api' g g1 Hprev Hapi).
    by apply py_for_cache_job_cached.
Qed.

Lemma cache_job_raise job g e :
  (cache_job JOB_LABEL job g).2 = Raise e ↔
  e = TypeError
  ∧ labels (metadata job) = None
  ∧ active (status job) ≠ Some 1
  ∧ PyDict.get (JOB_CACHE g) (name (metadata job)) = None.
Proof.
  rewrite cache_job_cases, <- PyDictFacts.contains_false,
    <- py_eq_int_false.
  destruct (PyDict.contains _ _); [by split; [|intros (_&_&_&?)]|].
  destruct (py_eq_int _ _); [by split; [|intros (_&_&?&_)]|].
  destruct (labels (metadata job)) as [job_labels|].
  - destruct (is_none _); by split; [|intros (_&?&_)].
  - simpl. split; [by intros [= <-] | by intros (-> & _)].
Qed.

(** X10: [retrieve_jobs] raises in exactly two cases.  Either the list call
    raises an exception that is not an [ApiException]: that exception is
    not caught, and nothing has been cached.  Or the list call returned
    jobs, and the caching loop reaches a fetched job with null labels that
    is not active and whose name is not cached yet: the error is then a
    [TypeError], the jobs before that one have been cached and the jobs
    after it are not looked at. *)
Theorem retrieve_jobs_raises namespace api g e :
  (retrieve_jobs START JOB_LABEL namespace api g).2 = Raise e ↔
  (api namespace = OtherError
   ∧ e = ClientError
   ∧ (retrieve_jobs START JOB_LABEL namespace api g).1 = g)
  ∨ (api namespace ≠ OtherError
     ∧ e = TypeError
     ∧ ∃ pre job post g1,
         fetched api namespace = pre ++ job :: post
         ∧ py_for pre (cache_job JOB_LABEL) g = (g1, Ok tt)
         ∧ labels (metadata job) = None
         ∧ active (status job) ≠ Some 1
         ∧ PyDict.get (JOB_CACHE g1) (name (metadata job)) = None
         ∧ (retrieve_jobs START JOB_LABEL namespace api g).1 = g1).
Proof.
  assert (∀ data s,
            (∀ e, (py_for data (cache_job JOB_LABEL) s).2 = Raise e ↔
               e = TypeError
               ∧ ∃ pre job post s1,
                   data = pre ++ job :: post
                   ∧ py_for pre (cache_job JOB_LABEL) s = (s1, Ok tt)
                   ∧ labels (metadata job) = None
                   ∧ active (status job) ≠ Some 1
                   ∧ PyDict.get (JOB_CACHE s1) (name (metadata job)) = None
                   ∧ (py_for data (cache_job JOB_LABEL) s).1 = s1)) as Hloop.
  { induction data as [|x data IH]; intros s e'.
    - split; [done|]. intros (_ & pre & job & post & _ & Heq & _).
      by destruct pre.
    - cbn [py_for]. unfold mbind, py_bind.
      pose proof (cache_job_raise x s) as Hraise.
      assert ((cache_job JOB_LABEL x s).2 = Raise TypeError →
              (cache_job JOB_LABEL x s).1 = s) as Hsame.
      { rewrite cache_job_cases.
        destruct (PyDict.contains _ _); [done|].
        destruct (py_eq_int _ _); [done|].
        destruct (labels (metadata x)); [|done]. by destruct (is_none _). }
      destruct (cache_job JOB_LABEL x s) as [s' [[]|e0]] eqn:Hx;
        simpl in Hraise, Hsame.
      + rewrite IH. split.
        * intros (-> & pre & job & post & s1 & -> & Hpre & Hrest).
          split; [done|]. exists (x :: pre), job, post, s1.
          split; [done|]. split; [|done].
          cbn [py_for]. unfold mbind, py_bind. by rewrite Hx.
        * intros (-> & pre & job & post & s1 & Heq & Hpre & Hnull & Hrest).
          split; [done|]. destruct pre as [|x0 pre]; simpl in Heq.
          { injection Heq as <- _. injection Hpre as <-.
            destruct Hrest as (Hact & Hget & _).
            assert (Raise TypeError = Ok tt :> result unit); [|done].
            symmetry. by apply (Hraise TypeError). }
          injection Heq as <- ->. exists pre, job, post, s1.
          split; [done|]. split; [|done].
          cbn [py_for] in Hpre. unfold mbind, py_bind in Hpre.
          by rewrite Hx in Hpre.
      + simpl. split.
        * intros [= <-]. destruct (proj1 (Hraise e0) eq_refl)
            as (-> & Hnull & Hact & Hget).
          split; [done|]. exists [], x, data, s.
          rewrite (Hsame eq_refl). by repeat split.
        * intros (-> & pre & job & post & s1 & Heq & Hpre & _).
          destruct (proj1 (Hraise e0) eq_refl) as (-> & _). done. }
  specialize (Hloop (fetched api namespace) g e).
  rewrite retrieve_jobs_cases.
  destruct (api namespace) as [items| |] eqn:Hapi.
  3:{ simpl. split.
      - intros [= <-]. by left.
      - by intros [(_ & -> & _)|(Hne & _)]. }
  all: destruct (py_for _ _ g) as [g1 [[]|e0]]; simpl in *.
  1,3: split; [done|]; intros [(? & _)|(_ & -> & Hex)]; [done|];
    assert (Ok tt = Raise TypeError :> result unit) as Habs
      by (apply Hloop; by split);
    done.
  all: split;
    [intros [= ->]; right; split; [done|]; by apply Hloop
    |intros [(? & _)|(_ & He & Hex)]; [done|];
     assert (Raise e0 = Raise e :> result unit) as [= ->]
       by (apply Hloop; by split);
     done].
Qed.

Lemma histogram_of_groups_raise_type
    (groups : list (string * list V1Job)) e :
  (histogram_of_groups (DURATION_BUCKETS ++ [Inf]) groups).2 = Raise e →
  e = TypeError.
Proof.
  induction groups as [|[app jobs] groups IH]; cbn [histogram_of_groups];
    [done|].
  pose proof (histogram_of_group_spec app jobs) as Hspec.
  destruct (histogram_of_group _ app jobs) as [y|e0].
  - destruct (histogram_of_groups _ groups) as [ys r]. exact IH.
  - destruct Hspec as [-> _]. by intros [= <-].
Qed.

Lemma duration_seconds_raise_type (jobs : list V1Job) e :
  Forall (has_label JOB_LABEL) jobs →
  (kubernetes_job_duration_seconds JOB_LABEL jobs).2 = Raise e →
  e = TypeError.
Proof.
  intros Hall. unfold kubernetes_job_duration_seconds. cbv zeta.
  destruct (get_app_labels_total JOB_LABEL jobs Hall) as [groups ->].
  apply histogram_of_groups_raise_type.
Qed.

Lemma Forall_filter_labelled (P : V1Job → Prop) `{∀ x, Decision (P x)}
    (jobs : list V1Job) :
  Forall (has_label JOB_LABEL) jobs →
  Forall (has_label JOB_LABEL) (filter P jobs).
Proof.
  rewrite !Forall_forall. intros Hall job Hin.
  apply list_elem_of_filter in Hin as [_ Hin]. by apply Hall.
Qed.

Lemma retrieve_jobs_result namespace api g g1 (jobs : list V1Job) :
  retrieve_jobs START JOB_LABEL namespace api g = (g1, Ok jobs) →
  jobs = eligible START (JOB_CACHE g1).
Proof. intros Hrun. by apply retrieve_jobs_returned in Hrun as (_ & _ & ?). Qed.

Lemma retrieve_jobs_raise_type namespace api g e :
  (retrieve_jobs START JOB_LABEL namespace api g).2 = Raise e →
  (api namespace = OtherError ∧ e = ClientError) ∨ e = TypeError.
Proof.
  rewrite retrieve_jobs_cases.
  assert (∀ data s, (py_for data (cache_job JOB_LABEL) s).2 = Raise e →
                    e = TypeError) as Hloop.
  { induction data as [|x data IH]; intros s; [done|].
    cbn [py_for]. unfold mbind, py_bind.
    pose proof (cache_job_raise x s e) as Hraise.
    destruct (cache_job JOB_LABEL x s) as [s' [[]|e0]]; simpl in *.
    - apply IH.
    - intros [= ->]. by apply Hraise. }
  specialize (Hloop (fetched api namespace) g).
  destruct (api namespace) as [items| |] eqn:Hapi.
  3:{ intros [= <-]. by left. }
  all: destruct (py_for _ _ g) as [g1 [[]|e0]]; simpl in *; [done|].
  all: intros [= ->]; right; by apply Hloop.
Qed.

(** X11: a cycle that raises, from its list call on, has published nothing:
    the metrics are those of before the cycle, so readers keep the last
    completed snapshot.  From a cache whose records all carry the label, the
    error that leaves such a cycle is the exception of the list call that
    [retrieve_jobs] does not catch, or else a [TypeError]; it is never a
    [KeyError]. *)
Theorem scrape_raise_keeps_metrics api g e :
  (scrape START NAMESPACE JOB_LABEL api g).2 = Raise e →
  metrics (scrape START NAMESPACE JOB_LABEL api g).1 = metrics g
  ∧ (cache_labelled JOB_LABEL (JOB_CACHE g) →
     ((api NAMESPACE = OtherError ∧ e = ClientError) ∨ e = TypeError)
     ∧ e ≠ KeyError).
Proof.
  rewrite scrape_cases.
  pose proof (retrieve_jobs_metrics START JOB_LABEL NAMESPACE api g)
    as Hmetrics.
  pose proof (retrieve_jobs_labelled START JOB_LABEL NAMESPACE api g)
    as Hinv.
  pose proof (retrieve_jobs_raise_type NAMESPACE api g e) as Htype.
  assert (e = TypeError →
          ((api NAMESPACE = OtherError ∧ e = ClientError) ∨ e = TypeError)
          ∧ e ≠ KeyError) as Hfin.
  { intros ->. split; [by right | done]. }
  destruct (retrieve_jobs _ _ _ _ g) as [g1 [jobs|e0]] eqn:Hrun;
    simpl in *.
  2:{ intros [= ->]. split; [done|]. intros _.
      destruct (Htype eq_refl) as [[Hapi ->]|He]; [|by apply Hfin].
      split; [by left | done]. }
  assert (cache_labelled JOB_LABEL (JOB_CACHE g) →
          Forall (has_label JOB_LABEL) jobs) as Hall.
  { intros Hg. rewrite (retrieve_jobs_result _ _ _ _ _ Hrun).
    apply (labelled_Forall JOB_LABEL (JOB_CACHE g1));
      [by apply Hinv | apply eligible_subseteq]. }
  destruct (kubernetes_jobs_total JOB_LABEL jobs).2 eqn:H1.
  2:{ simpl. intros [= ->]. split; [done|]. intros Hg.
      rewrite kubernetes_jobs_total_returns in H1 by by apply Hall.
      done. }
  destruct (kubernetes_jobs_total JOB_LABEL (filter _ jobs)).2 eqn:H2.
  2:{ simpl. intros [= ->]. split; [done|]. intros Hg.
      rewrite kubernetes_jobs_total_returns in H2
        by by apply Forall_filter_labelled, Hall.
      done. }
  destruct (kubernetes_job_duration_seconds JOB_LABEL (filter _ jobs)).2
    eqn:H3; [done|].
  simpl. intros [= ->]. split; [done|]. intros Hg. apply Hfin.
  apply (duration_seconds_raise_type _ _
           (Forall_filter_labelled _ _ (Hall Hg)) H3).
Qed.

(** X12: from a cache whose records all carry the label, a cycle completes
    exactly when [retrieve_jobs] returns and every succeeded job it returns
    has both timestamps.  A completed cycle publishes the three families of
    the returned jobs under their names and leaves every other key of the
    metrics as it was. *)
Theorem scrape_completes_iff api g :
  cache_labelled JOB_LABEL (JOB_CACHE g) →
  ((scrape START NAMESPACE JOB_LABEL api g).2 = Ok tt ↔
   ∃ g1 jobs,
     retrieve_jobs START JOB_LABEL NAMESPACE api g = (g1, Ok jobs)
     ∧ ∀ job, job ∈ jobs → succeeded (status job) = Some 1 →
              ∃ q, lasts job q)
  ∧ ((scrape START NAMESPACE JOB_LABEL api g).2 = Ok tt →
     ∃ g1 jobs,
       retrieve_jobs START JOB_LABEL NAMESPACE api g = (g1, Ok jobs)
       ∧ JOB_CACHE (scrape START NAMESPACE JOB_LABEL api g).1 = JOB_CACHE g1
       ∧ metrics (scrape START NAMESPACE JOB_LABEL api g).1
           !! "kubernetes_jobs_total"
         = Some (Counter (jobs_total_family JOB_LABEL jobs))
       ∧ metrics (scrape START NAMESPACE JOB_LABEL api g).1
           !! "kubernetes_job_errors_total"
         = Some (Counter (job_errors_total_family JOB_LABEL jobs))
       ∧ metrics (scrape START NAMESPACE JOB_LABEL api g).1
           !! "kubernetes_job_duration_seconds"
         = Some (Histogram (job_duration_seconds_family JOB_LABEL jobs))
       ∧ ∀ key, key ∉ metric_names →
           metrics (scrape START NAMESPACE JOB_LABEL api g).1 !! key
           = metrics g !! key).
Proof.
  intros Hg. rewrite scrape_cases.
  pose proof (retrieve_jobs_metrics START JOB_LABEL NAMESPACE api g)
    as Hmetrics.
  pose proof (retrieve_jobs_labelled START JOB_LABEL NAMESPACE api g Hg)
    as Hinv.
  destruct (retrieve_jobs _ _ _ _ g) as [g1 [jobs|e0]] eqn:Hrun;
    simpl in *.
  2:{ split; [|done]. split; [done|]. by intros (? & ? & [= ] & _). }
  assert (Forall (has_label JOB_LABEL) jobs) as Hall.
  { rewrite (retrieve_jobs_result _ _ _ _ _ Hrun).
    apply (labelled_Forall JOB_LABEL (JOB_CACHE g1));
      [done | apply eligible_subseteq]. }
  rewrite kubernetes_jobs_total_returns by done.
  rewrite kubernetes_jobs_total_returns by by apply Forall_filter_labelled.
  pose proof (Forall_filter_labelled
                (λ job, py_eq_int (succeeded (status job)) 1 = true)
                jobs Hall) as Hsucc.
  pose proof (duration_seconds_returns JOB_LABEL _ Hsucc) as Hreturns.
  pose proof (duration_seconds_raises JOB_LABEL _ Hsucc) as Hraises.
  destruct (kubernetes_job_duration_seconds JOB_LABEL (filter _ jobs)).2
    as [[]|e] eqn:H3; simpl.
  - split.
    + split; [|done]. intros _. exists g1, jobs. split; [done|].
      intros job Hin Hs.
      destruct (completion_time (status job)) as [c|] eqn:Hc.
      * destruct (start_time (status job)) as [s|] eqn:Hst.
        { exists (total_seconds (c - s)), c, s. by repeat split. }
        assert (Ok tt = Raise TypeError :> result unit); [|done].
        apply Hraises. exists job. split; [|by right].
        apply list_elem_of_filter. split; [by apply py_eq_int_true|done].
      * assert (Ok tt = Raise TypeError :> result unit); [|done].
        apply Hraises. exists job. split; [|by left].
        apply list_elem_of_filter. split; [by apply py_eq_int_true|done].
    + intros _. exists g1, jobs. split; [done|]. split; [done|].
      simpl. split; [|split; [|split]].
      * by rewrite lookup_insert_ne, lookup_insert_ne, lookup_insert_eq.
      * by rewrite lookup_insert_ne, lookup_insert_eq.
      * by rewrite lookup_insert_eq.
      * intros key Hout. rewrite Hmetrics.
        rewrite !lookup_insert_ne; [done|..]; intros <-; apply Hout;
          unfold metric_names; rewrite !elem_of_cons; auto.
  - split; [|done]. split; [done|].
    intros (g1' & jobs' & [= <- <-] & Htimes).
    destruct Hreturns as [Hret _]; [|done].
    intros job Hin. apply list_elem_of_filter in Hin as [Hs Hin].
    apply Htimes; [done|]. by apply py_eq_int_true.
Qed.

End cycle_more.

(** ** The exposition of the metrics *)

Section exposition.
Variable START : datetime.
Variable NAMESPACE : string.
Variable JOB_LABEL : string.
Implicit Types (g : Globals) (m : gmap string MetricFamily)
  (api : string → list_response).

Lemma string_le_total : Total string_le.
Proof. intros a b. apply String.leb_total. Qed.

Lemma elem_of_sorted_keys m key :
  key ∈ sorted_keys m ↔ is_Some (m !! key).
Proof.
  unfold sorted_keys. rewrite merge_sort_Permutation, list_elem_of_fmap.
  split.
  - intros ([k family] & -> & Hin). exists family.
    by apply elem_of_map_to_list.
  - intros [family Hfamily]. exists (key, family). split; [done|].
    by apply elem_of_map_to_list.
Qed.

Lemma collect_keys_spec m (keys : list string) :
  (∀ key, key ∈ keys → is_Some (m !! key)) →
  (collect_keys m keys).2 = Ok tt
  ∧ Forall2 (λ key family, m !! key = Some family) keys
      (collect_keys m keys).1.
Proof.
  induction keys as [|key keys IH]; intros Hall; simpl.
  - split; [done | constructor].
  - destruct (Hall key) as [family Hfamily]; [by left|]. rewrite Hfamily.
    destruct IH as [Hret Hyield]. { intros k Hk. apply Hall. by right. }
    destruct (collect_keys m keys) as [ys r]. simpl in *.
    split; [done|]. by constructor.
Qed.

(** X13: [collect] never fails with a missing key: it yields one family
    per key of the metrics, each the one stored under its key, in ascending
    order of the keys and no key twice. *)
Theorem collect_never_raises g :
  (collect g).2 = Ok tt
  ∧ Forall2 (λ key family, metrics g !! key = Some family)
      (sorted_keys (metrics g)) (collect g).1
  ∧ Sorted string_le (sorted_keys (metrics g))
  ∧ NoDup (sorted_keys (metrics g))
  ∧ (∀ key, key ∈ sorted_keys (metrics g) ↔ is_Some (metrics g !! key))
  ∧ length (collect g).1 = size (metrics g).
Proof.
  destruct (collect_keys_spec (metrics g) (sorted_keys (metrics g)))
    as [Hret Hyield].
  { intros key. by rewrite elem_of_sorted_keys. }
  split; [done|]. split; [done|]. split; [|split; [|split]].
  - apply (@Sorted_merge_sort _ string_le _ string_le_total).
  - unfold sorted_keys. rewrite merge_sort_Permutation.
    apply NoDup_fst_map_to_list.
  - apply elem_of_sorted_keys.
  - unfold collect. rewrite <- (Forall2_length _ _ _ Hyield).
    unfold sorted_keys. rewrite merge_sort_Permutation, length_fmap.
    apply length_map_to_list.
Qed.

(** The metrics after a cycle: unchanged when it raised, the three
    families written over them when it completed. *)
Lemma scrape_metrics api g :
  match (scrape START NAMESPACE JOB_LABEL api g).2 with
  | Raise _ =>
      metrics (scrape START NAMESPACE JOB_LABEL api g).1 = metrics g
  | Ok _ =>
      let jobs :=
        eligible START
          (JOB_CACHE (scrape START NAMESPACE JOB_LABEL api g).1) in
      metrics (scrape START NAMESPACE JOB_LABEL api g).1
      = <["kubernetes_job_duration_seconds" :=
            Histogram (job_duration_seconds_family JOB_LABEL jobs)]>
          (<["kubernetes_job_errors_total" :=
               Counter (job_errors_total_family JOB_LABEL jobs)]>
             (<["kubernetes_jobs_total" :=
                  Counter (jobs_total_family JOB_LABEL jobs)]> (metrics g)))
  end.
Proof.
  rewrite scrape_cases.
  pose proof (retrieve_jobs_metrics START JOB_LABEL NAMESPACE api g)
    as Hmetrics.
  destruct (retrieve_jobs _ _ _ _ g) as [g1 [jobs|e0]] eqn:Hrun;
    simpl in *; [|done].
  rewrite (retrieve_jobs_result START JOB_LABEL NAMESPACE api g g1 jobs Hrun).
  destruct (kubernetes_jobs_total JOB_LABEL _).2; [|done].
  destruct (kubernetes_jobs_total JOB_LABEL (filter _ _)).2; [|done].
  destruct (kubernetes_job_duration_seconds JOB_LABEL (filter _ _)).2;
    [|done].
  simpl. by rewrite Hmetrics.
Qed.

Lemma scrape_published_names_only api g :
  published_names_only g →
  published_names_only (scrape START NAMESPACE JOB_LABEL api g).1.
Proof.
  intros Hg key. pose proof (scrape_metrics api g) as Hm.
  destruct (scrape START NAMESPACE JOB_LABEL api g).2.
  - cbv zeta in Hm. rewrite Hm. rewrite !lookup_insert.
    unfold metric_names. rewrite !elem_of_cons.
    repeat case_decide; subst; auto.
    intros Hin. apply Hg in Hin. unfold metric_names in Hin.
    by rewrite !elem_of_cons in Hin.
  - rewrite Hm. apply Hg.
Qed.

(** X14: only [scrape] writes the metrics, so from the start of the
    process on they hold no other names than the three it publishes; and
    after a completed cycle [collect] yields exactly the three families of
    that cycle's jobs, the histogram first, then the error counter, then
    the job counter.  Before the first cycle it yields nothing. *)
Theorem collect_after_scrape :
  published_names_only initial
  ∧ collect initial = ([], Ok tt)
  ∧ (∀ api g,
       published_names_only g →
       published_names_only (scrape START NAMESPACE JOB_LABEL api g).1)
  ∧ (∀ apis g,
       published_names_only g →
       published_names_only
         (main_loop START NAMESPACE JOB_LABEL apis g).1)
  ∧ (∀ api g g1,
       published_names_only g →
       scrape START NAMESPACE JOB_LABEL api g = (g1, Ok tt) →
       collect g1
       = ([ Histogram (job_duration_seconds_family JOB_LABEL
                         (eligible START (JOB_CACHE g1)));
            Counter (job_errors_total_family JOB_LABEL
                       (eligible START (JOB_CACHE g1)));
            Counter (jobs_total_family JOB_LABEL
                       (eligible START (JOB_CACHE g1))) ],
          Ok tt)).
Proof.
  split; [|split; [|split; [|split]]].
  - intros key [family Hfamily]. simpl in Hfamily.
    by rewrite lookup_empty in Hfamily.
  - done.
  - apply scrape_published_names_only.
  - intros apis g Hg. unfold main_loop.
    apply (py_for_preserves published_names_only); [|done].
    intros api s. apply scrape_published_names_only.
  - intros api g g1 Hg Hrun. pose proof (scrape_metrics api g) as Hm.
    rewrite Hrun in Hm. cbv zeta in Hm. simpl in Hm.
    unfold collect. rewrite Hm.
    generalize (Histogram (job_duration_seconds_family JOB_LABEL
                             (eligible START (JOB_CACHE g1)))).
    generalize (Counter (job_errors_total_family JOB_LABEL
                           (eligible START (JOB_CACHE g1)))).
    generalize (Counter (jobs_total_family JOB_LABEL
                           (eligible START (JOB_CACHE g1)))).
    intros total errors durations.
    assert (<["kubernetes_job_duration_seconds" := durations]>
              (<["kubernetes_job_errors_total" := errors]>
                 (<["kubernetes_jobs_total" := total]> (metrics g)))
            = <["kubernetes_job_duration_seconds" := durations]>
                (<["kubernetes_job_errors_total" := errors]>
                   (<["kubernetes_jobs_total" := total]> ∅))) as ->.
    { apply map_eq. intros key. rewrite !lookup_insert.
      repeat case_decide; try done. rewrite lookup_empty.
      destruct (metrics g !! key) as [family|] eqn:Hkey; [|done].
      assert (key ∈ metric_names) as Hin by (apply Hg; by exists family).
      unfold metric_names in Hin. rewrite !elem_of_cons in Hin.
      destruct Hin as [?|[?|[?|Hin]]]; try congruence.
      by apply not_elem_of_nil in Hin. }
    by vm_compute.
Qed.

End exposition.

(** ** The three families of a cycle, label by label *)

Section families.
Variable START : datetime.
Variable NAMESPACE : string.
Variable JOB_LABEL : string.
Implicit Types (jobs : list V1Job) (groups : list (string * list V1Job))
  (app : string).

Lemma counter_samples (ys : list (Z * list string)) :
  ∀ f0,
    c_samples (fold_left
                 (λ family '(value, labels),
                    counter_add_metric family labels value) ys f0)
    = c_samples f0 ++ ((λ '(value, labels), (labels, value)) <$> ys).
Proof.
  induction ys as [|[value labels] ys IH]; intros f0; simpl.
  - by rewrite app_nil_r.
  - rewrite IH. simpl. by rewrite <- app_assoc.
Qed.

Lemma histogram_samples (ys : list (list (string * Z) * Q * list string)) :
  ∀ f0,
    h_samples (fold_left
                 (λ family '(buckets, duration_sum, labels),
                    histogram_add_metric family labels buckets duration_sum)
                 ys f0)
    = h_samples f0
      ++ ((λ '(buckets, duration_sum, labels),
             (labels, buckets, duration_sum)) <$> ys).
Proof.
  induction ys as [|[[buckets sum] labels] ys IH]; intros f0; simpl.
  - by rewrite app_nil_r.
  - rewrite IH. simpl. by rewrite <- app_assoc.
Qed.

Lemma counter_value_yielded (ys : list (Z * list string)) app :
  foldr Z.add 0
    ((filter (λ sample, sample.1 = [app])
        ((λ '(value, labels), (labels, value)) <$> ys)).*2)
  = yielded_count ys app.
Proof.
  unfold yielded_count. induction ys as [|[value labels] ys IH]; [done|].
  csimpl. rewrite !filter_cons. simpl.
  destruct (decide (labels = [app])); csimpl; by rewrite IH.
Qed.

Lemma histogram_count_yielded
    (ys : list (list (string * Z) * Q * list string)) app :
  foldr Z.add 0
    ((λ sample, default 0 (snd <$> last sample.1.2))
       <$> filter (λ sample, sample.1.1 = [app])
             ((λ '(buckets, duration_sum, labels),
                 (labels, buckets, duration_sum)) <$> ys))
  = yielded_count (observation_count <$> ys) app.
Proof.
  unfold yielded_count.
  induction ys as [|[[buckets sum] labels] ys IH]; [done|].
  csimpl. rewrite !filter_cons. simpl.
  destruct (decide (labels = [app])); csimpl; by rewrite IH.
Qed.

Lemma yielded_count_groups groups app :
  NoDup (PyDict.keys groups) →
  yielded_count
    ((λ '(label, data), (Z.of_nat (length data), [label])) <$> groups) app
  = match PyDict.get groups app with
    | Some data => Z.of_nat (length data)
    | None => 0
    end.
Proof.
  unfold yielded_count, PyDict.keys.
  induction groups as [|[label data] groups IH]; [done|].
  csimpl. intros Hnd. apply NoDup_cons in Hnd as [Hfresh Hnd].
  rewrite filter_cons. simpl. specialize (IH Hnd).
  destruct (decide (label = app)) as [->|Hne].
  - rewrite decide_True by done. csimpl. rewrite IH.
    apply PyDictFacts.get_None_keys in Hfresh. rewrite Hfresh. lia.
  - rewrite decide_False by congruence. exact IH.
Qed.

(** The count yielded for a label is the size of its group. *)
Lemma yielded_count_group jobs app :
  (kubernetes_jobs_total JOB_LABEL jobs).2 = Ok tt →
  yielded_count (kubernetes_jobs_total JOB_LABEL jobs).1 app
  = Z.of_nat (length (group JOB_LABEL app jobs)).
Proof.
  destruct (get_app_labels JOB_LABEL jobs) as [groups|e] eqn:Hrun.
  2:{ unfold kubernetes_jobs_total. by rewrite Hrun. }
  rewrite (kubernetes_jobs_total_yields _ _ _ Hrun). intros _. simpl.
  rewrite yielded_count_groups.
  - rewrite (get_app_labels_from_get _ _ _ _ Hrun app). simpl.
    by destruct (group JOB_LABEL app jobs).
  - apply (get_app_labels_from_nodup JOB_LABEL jobs [] groups Hrun).
    apply NoDup_nil_2.
Qed.

Lemma group_split jobs app :
  length (group JOB_LABEL app jobs)
  = (length (group JOB_LABEL app (error_jobs jobs))
     + length (group JOB_LABEL app (succeeded_jobs jobs)))%nat.
Proof.
  unfold group, error_jobs, succeeded_jobs, py_ne_int.
  induction jobs as [|job jobs IH]; [done|].
  rewrite !(filter_cons _ job).
  destruct (py_eq_int (succeeded (status job)) 1) eqn:Hs; simpl;
    rewrite ?filter_cons;
    destruct (decide (app_label_of JOB_LABEL job = Ok app)); simpl; lia.
Qed.

(** X15: after a completed cycle the published families agree label by
    label: the job counter of a label is the number of eligible jobs with
    that label value, and it is the sum of the label's error counter and of
    the number of observations of its histogram, a label without a sample
    counting as zero. *)
Theorem scrape_totals_split (api : string → list_response) g g1 :
  scrape START NAMESPACE JOB_LABEL api g = (g1, Ok tt) →
  ∃ total errors durations,
    metrics g1 !! "kubernetes_jobs_total" = Some (Counter total)
    ∧ metrics g1 !! "kubernetes_job_errors_total" = Some (Counter errors)
    ∧ metrics g1 !! "kubernetes_job_duration_seconds"
      = Some (Histogram durations)
    ∧ ∀ app,
        counter_value total app
        = Z.of_nat (length (group JOB_LABEL app
                              (eligible START (JOB_CACHE g1))))
        ∧ counter_value total app
          = counter_value errors app + histogram_count durations app.
Proof.
  rewrite scrape_cases.
  destruct (retrieve_jobs _ _ _ _ g) as [g0 [jobs|e0]] eqn:Hrun; [|done].
  pose proof (retrieve_jobs_result START JOB_LABEL NAMESPACE api g g0 jobs
                Hrun) as Hjobs.
  destruct (kubernetes_jobs_total JOB_LABEL jobs).2 as [[]|] eqn:H1; [|done].
  destruct (kubernetes_jobs_total JOB_LABEL (filter _ jobs)).2
    as [[]|] eqn:H2; [|done].
  destruct (kubernetes_job_duration_seconds JOB_LABEL (filter _ jobs)).2
    as [[]|] eqn:H3; [|done].
  intros [= <-].
  exists (jobs_total_family JOB_LABEL jobs),
         (job_errors_total_family JOB_LABEL jobs),
         (job_duration_seconds_family JOB_LABEL jobs).
  simpl. split; [|split; [|split]].
  - by rewrite lookup_insert_ne, lookup_insert_ne, lookup_insert_eq.
  - by rewrite lookup_insert_ne, lookup_insert_eq.
  - by rewrite lookup_insert_eq.
  - intros app. rewrite <- Hjobs.
    assert (counter_value (jobs_total_family JOB_LABEL jobs) app
            = Z.of_nat (length (group JOB_LABEL app jobs))) as Htotal.
    { unfold counter_value, jobs_total_family.
      rewrite counter_samples. simpl.
      by rewrite counter_value_yielded, yielded_count_group. }
    split; [done|]. rewrite Htotal.
    unfold counter_value, job_errors_total_family, histogram_count,
      job_duration_seconds_family.
    rewrite counter_samples, histogram_samples. simpl.
    rewrite counter_value_yielded, histogram_count_yielded.
    destruct (duration_seconds_observations JOB_LABEL _ H3) as [-> Hret].
    rewrite (yielded_count_group _ _ H2), (yielded_count_group _ _ Hret).
    pose proof (group_split jobs app) as Hsplit.
    unfold error_jobs, succeeded_jobs in Hsplit. lia.
Qed.

End families.

(** ** Which names a cycle caches *)

Section cached_names.
Variable START : datetime.
Variable NAMESPACE : string.
Variable JOB_LABEL : string.
Implicit Types (job : V1Job) (g : Globals) (data : list V1Job).

Lemma cache_job_names job g key :
  is_Some (PyDict.get (JOB_CACHE (cache_job JOB_LABEL job g).1) key) ↔
  is_Some (PyDict.get (JOB_CACHE g) key)
  ∨ (name (metadata job) = key
     ∧ active (status job) ≠ Some 1 ∧ has_label JOB_LABEL job).
Proof.
  destruct (cacheable_decidable JOB_LABEL job g) as [Hc|Hc].
  - rewrite (cache_job_cacheable _ _ _ Hc). simpl.
    destruct Hc as (Habsent & Hactive & Hlabel).
    destruct (decide (name (metadata job) = key)) as [<-|Hne].
    + rewrite PyDictFacts.get_set_eq. split; [by right | by eexists].
    + rewrite PyDictFacts.get_set_ne by done.
      split; [by left | by intros [?|[? _]]].
  - rewrite (cache_job_not_cacheable _ _ _ Hc).
    split; [by left|]. intros [?|(<- & Hactive & Hlabel)]; [done|].
    destruct (PyDict.get (JOB_CACHE g) (name (metadata job)))
      as [stored|] eqn:Hget; [by exists stored|].
    exfalso. by apply Hc.
Qed.

Lemma py_for_cache_job_names data :
  ∀ g g1 key,
    py_for data (cache_job JOB_LABEL) g = (g1, Ok tt) →
    (is_Some (PyDict.get (JOB_CACHE g1) key) ↔
     is_Some (PyDict.get (JOB_CACHE g) key)
     ∨ ∃ job, job ∈ data
              ∧ name (metadata job) = key
              ∧ active (status job) ≠ Some 1 ∧ has_label JOB_LABEL job).
Proof.
  induction data as [|x data IH]; intros g g1 key.
  - intros [= <-]. split; [by left|].
    intros [?|(job & Hin & _)]; [done|]. by apply not_elem_of_nil in Hin.
  - cbn [py_for]. unfold mbind, py_bind.
    pose proof (cache_job_names x g key) as Hx.
    destruct (cache_job JOB_LABEL x g) as [g' [[]|e]]; [|done].
    simpl in Hx. intros Hrun. rewrite (IH g' g1 key Hrun), Hx.
    split.
    + intros [[?|Hnew]|(job & Hin & Hrest)].
      * by left.
      * right. exists x. split; [by left | done].
      * right. exists job. split; [by right | done].
    + intros [?|(job & Hin & Hrest)]; [left; by left|].
      apply elem_of_cons in Hin as [->|Hin].
      * left. by right.
      * right. by exists job.
Qed.

(** X16: when [retrieve_jobs] returns, the names in the cache are the
    names that were there plus the names of the fetched jobs that are not
    active and carry the label: a finished, labelled job is never missed,
    and a job seen only as active or without the label is not cached. *)
Theorem retrieve_jobs_cached_names (api : string → list_response) g g1
    (jobs : list V1Job) key :
  retrieve_jobs START JOB_LABEL NAMESPACE api g = (g1, Ok jobs) →
  (is_Some (PyDict.get (JOB_CACHE g1) key) ↔
   is_Some (PyDict.get (JOB_CACHE g) key)
   ∨ ∃ job, job ∈ fetched api NAMESPACE
            ∧ name (metadata job) = key
            ∧ active (status job) ≠ Some 1 ∧ has_label JOB_LABEL job).
Proof.
  intros Hrun. apply retrieve_jobs_returned in Hrun as (_ & Hloop & _).
  by apply py_for_cache_job_names.
Qed.

End cached_names.

(** ** The further properties at sample records *)

(** X1 at sample records: two label values, three jobs. *)
Lemma get_app_labels_partition_witness :
  NoDup (PyDict.keys [("foo", [job_5s; job_45s]);
                      ("bar", [job_no_completion])])
  ∧ group_sizes [("foo", [job_5s; job_45s]); ("bar", [job_no_completion])]
    = length [job_5s; job_no_completion; job_45s].
Proof.
  destruct (get_app_labels_partition "app"
              [job_5s; job_no_completion; job_45s]
              [("foo", [job_5s; job_45s]); ("bar", [job_no_completion])])
    as (Hnd & _ & _ & Hsize); [by vm_compute|].
  split; [exact Hnd | exact Hsize].
Defined.

(** X2 at sample records: the first job without the label has a label set
    without the key, so the error is a [KeyError], although a later job has
    null labels. *)
Lemma get_app_labels_first_unlabelled_witness :
  get_app_labels "app" [job_5s; job_unlabelled; job_null_labels]
  = Raise KeyError.
Proof.
  apply (get_app_labels_first_unlabelled "app"
           [job_5s; job_unlabelled; job_null_labels]).
  exists [job_5s], job_unlabelled, [job_null_labels].
  split; [done|]. split; [repeat constructor; apply has_label_app_foo|].
  right. exists team_x. by vm_compute.
Defined.

(** X3 at sample records: the counts 2 and 1 add up to the three jobs. *)
Lemma kubernetes_jobs_total_counts_witness :
  NoDup ((kubernetes_jobs_total "app"
            [job_5s; job_no_completion; job_45s]).1.*2)
  ∧ foldr Z.add 0
      ((kubernetes_jobs_total "app"
          [job_5s; job_no_completion; job_45s]).1.*1)
    = Z.of_nat (length [job_5s; job_no_completion; job_45s]).
Proof.
  destruct (kubernetes_jobs_total_counts "app"
              [job_5s; job_no_completion; job_45s])
    as (_ & Hnd & _ & Hsum); [by vm_compute|].
  split; [exact Hnd | exact Hsum].
Defined.

(** X4 at a sample duration: two hours fall into ["+Inf"] only. *)
Lemma find_applicable_buckets_suffix_witness :
  find_applicable_buckets (inject_Z 7200) = [Inf]
  ∧ find_applicable_buckets (inject_Z 5) = DURATION_BUCKETS ++ [Inf].
Proof.
  split.
  - apply (find_applicable_buckets_suffix (inject_Z 7200)).
    apply Qle_refl.
  - by apply (find_applicable_buckets_suffix (inject_Z 5)).
Defined.

(** X5 at the sample jobs of 5, 45 and 400 seconds. *)
Lemma histogram_bucket_counts_witness :
  ∃ app ds,
    ["foo"] = [app]
    ∧ Forall2 lasts (group "app" app [job_5s; job_45s; job_400s]) ds
    ∧ [("10", 1); ("30", 1); ("60", 2); ("180", 2); ("480", 3);
       ("1200", 3); ("3600", 3); ("7200", 3); ("+Inf", 3)]
      = (λ b, (str b, count_below b ds)) <$> (DURATION_BUCKETS ++ [Inf])
    ∧ Forall (λ count,
                0 ≤ count
                ≤ Z.of_nat (length (group "app" app
                                      [job_5s; job_45s; job_400s])))
        ([("10", 1); ("30", 1); ("60", 2); ("180", 2); ("480", 3);
          ("1200", 3); ("3600", 3); ("7200", 3); ("+Inf", 3)].*2).
Proof.
  apply (histogram_bucket_counts "app" [job_5s; job_45s; job_400s] _
           (inject_Z 450)).
  rewrite sample_histogram. by apply list_elem_of_singleton.
Defined.

(** X6 at sample records. *)
Lemma histogram_counts_match_totals_witness :
  observation_count
    <$> (kubernetes_job_duration_seconds "app"
           [job_5s; job_negative; job_45s]).1
  = (kubernetes_jobs_total "app" [job_5s; job_negative; job_45s]).1.
Proof.
  apply (histogram_counts_match_totals "app"
           [job_5s; job_negative; job_45s]).
  by vm_compute.
Defined.

(** X7 at sample records: a job fetched in two views is returned once. *)
Lemma cache_well_formed_invariant_witness :
  NoDup ((λ job, name (metadata job)) <$> [job_5s; job_45s])
  ∧ Forall (λ job, active (status job) ≠ Some 1) [job_5s; job_45s].
Proof.
  destruct (cache_well_formed_invariant 1000 "ns" "app")
    as (Hinit & _ & _ & _ & Hjobs).
  apply (Hjobs (λ _, JobList [job_5s; job_5s_later; job_45s; job_running])
           initial
           {| JOB_CACHE := [("job-5s", job_5s); ("job-45s", job_45s)];
              metrics := ∅ |});
    [exact Hinit | by vm_compute].
Defined.

(** X8 at sample records: a record stays through a cycle that completes
    and one that raises. *)
Lemma cache_only_grows_witness :
  PyDict.get
    (JOB_CACHE
       (main_loop 1000 "ns" "app"
          [(λ _, JobList [job_5s; job_45s]);
           (λ _, JobList [job_5s_later; job_null_labels])]
          {| JOB_CACHE := [("job-old", job_old)]; metrics := ∅ |}).1)
    "job-old"
  = Some job_old.
Proof.
  destruct (cache_only_grows 1000 "ns" "app") as (_ & _ & _ & Hkept & _).
  by apply Hkept.
Defined.

(** X9 at sample records: the same jobs fetched twice. *)
Lemma scrape_repoll_idempotent_witness :
  scrape 1000 "ns" "app"
    (λ _, JobList [job_5s; job_45s; job_running; job_unlabelled])
    (scrape 1000 "ns" "app"
       (λ _, JobList [job_5s; job_45s; job_running; job_unlabelled])
       initial).1
  = ((scrape 1000 "ns" "app"
        (λ _, JobList [job_5s; job_45s; job_running; job_unlabelled])
        initial).1,
     Ok tt).
Proof.
  destruct (scrape_repoll_idempotent 1000 "ns" "app"
              (λ _, JobList [job_5s; job_45s; job_running; job_unlabelled])
              initial
              (scrape 1000 "ns" "app"
                 (λ _, JobList [job_5s; job_45s; job_running;
                                job_unlabelled])
                 initial).1)
    as [Hsame _]; [by vm_compute|].
  exact Hsame.
Defined.

(** X10 at sample records: the job with null labels stops the loop after
    the first job was cached; an unreachable server stops [retrieve_jobs]
    before the loop. *)
Lemma retrieve_jobs_raises_witness :
  (retrieve_jobs 1000 "app" "ns"
     (λ _, JobList [job_5s; job_null_labels; job_45s]) initial).2
  = Raise TypeError
  ∧ (retrieve_jobs 1000 "app" "ns" (λ _, OtherError) initial).2
    = Raise ClientError.
Proof.
  split.
  - apply (retrieve_jobs_raises 1000 "app" "ns"
             (λ _, JobList [job_5s; job_null_labels; job_45s]) initial).
    right. split; [done|]. split; [done|].
    exists [job_5s], job_null_labels, [job_45s],
      {| JOB_CACHE := [("job-5s", job_5s)]; metrics := ∅ |}.
    by vm_compute.
  - apply (retrieve_jobs_raises 1000 "app" "ns" (λ _, OtherError) initial).
    left. by vm_compute.
Defined.

(** X11 at sample records: a cycle that raises on a succeeded job without
    completion time publishes nothing. *)
Lemma scrape_raise_keeps_metrics_witness :
  metrics (scrape 1000 "ns" "app"
             (λ _, JobList [job_5s; job_no_completion]) initial).1
  = metrics initial.
Proof.
  refine (proj1 (scrape_raise_keeps_metrics 1000 "ns" "app"
                   (λ _, JobList [job_5s; job_no_completion]) initial
                   TypeError _)).
  by vm_compute.
Defined.

(** X12 at sample records: the cycle completes, so the succeeded jobs it
    worked on have both timestamps. *)
Lemma scrape_completes_iff_witness :
  ∃ g1 jobs,
    retrieve_jobs 1000 "app" "ns"
      (λ _, JobList [job_5s; job_45s; job_running]) initial
    = (g1, Ok jobs)
    ∧ ∀ job, job ∈ jobs → succeeded (status job) = Some 1 →
             ∃ q, lasts job q.
Proof.
  destruct (scrape_completes_iff 1000 "ns" "app"
              (λ _, JobList [job_5s; job_45s; job_running]) initial)
    as [Hiff _].
  - intros job Hin. by apply not_elem_of_nil in Hin.
  - apply Hiff. by vm_compute.
Defined.

(** X13 at sample records: three families are served after a cycle. *)
Lemma collect_never_raises_witness :
  (collect (scrape 1000 "ns" "app" (λ _, JobList [job_5s]) initial).1).2
  = Ok tt
  ∧ length
      (collect (scrape 1000 "ns" "app" (λ _, JobList [job_5s])
                  initial).1).1
    = size (metrics (scrape 1000 "ns" "app" (λ _, JobList [job_5s])
                       initial).1).
Proof.
  destruct (collect_never_raises
              (scrape 1000 "ns" "app" (λ _, JobList [job_5s]) initial).1)
    as (Hret & _ & _ & _ & _ & Hlen).
  split; [exact Hret | exact Hlen].
Defined.

(** X14 at sample records. *)
Lemma collect_after_scrape_witness :
  collect (scrape 1000 "ns" "app" (λ _, JobList [job_5s]) initial).1
  = ([ Histogram (job_duration_seconds_family "app"
                    (eligible 1000
                       (JOB_CACHE (scrape 1000 "ns" "app"
                                     (λ _, JobList [job_5s]) initial).1)));
       Counter (job_errors_total_family "app"
                  (eligible 1000
                     (JOB_CACHE (scrape 1000 "ns" "app"
                                   (λ _, JobList [job_5s]) initial).1)));
       Counter (jobs_total_family "app"
                  (eligible 1000
                     (JOB_CACHE (scrape 1000 "ns" "app"
                                   (λ _, JobList [job_5s]) initial).1))) ],
     Ok tt).
Proof.
  destruct (collect_after_scrape 1000 "ns" "app")
    as (Hinit & _ & _ & _ & Hcollect).
  apply (Hcollect (λ _, JobList [job_5s]) initial); [exact Hinit|].
  by vm_compute.
Defined.

(** X15 at sample records: one failed and two succeeded jobs with the
    label value [foo]. *)
Lemma scrape_totals_split_witness :
  ∃ total errors durations,
    metrics (scrape 1000 "ns" "app"
               (λ _, JobList [job_5s; job_45s; job_5s_later;
                              mk_job "job-failed" 2000 (Some app_foo) None
                                None (Some 3000) None])
               initial).1 !! "kubernetes_jobs_total"
    = Some (Counter total)
    ∧ counter_value total "foo" = 3
    ∧ counter_value total "foo"
      = counter_value errors "foo" + histogram_count durations "foo".
Proof.
  destruct (scrape_totals_split 1000 "ns" "app"
              (λ _, JobList [job_5s; job_45s; job_5s_later;
                             mk_job "job-failed" 2000 (Some app_foo) None
                               None (Some 3000) None])
              initial
              (scrape 1000 "ns" "app"
                 (λ _, JobList [job_5s; job_45s; job_5s_later;
                                mk_job "job-failed" 2000 (Some app_foo)
                                  None None (Some 3000) None])
                 initial).1)
    as (total & errors & durations & Htotal & _ & _ & Hsplit);
    [by vm_compute|].
  exists total, errors, durations. split; [exact Htotal|].
  destruct (Hsplit "foo") as [Hcount Hsum]. split; [|exact Hsum].
  rewrite Hcount. by vm_compute.
Defined.

(** X16 at sample records: the finished job is cached, the running one is
    not. *)
Lemma retrieve_jobs_cached_names_witness :
  is_Some (PyDict.get [("job-5s", job_5s)] "job-5s")
  ∧ ¬ is_Some (PyDict.get [("job-5s", job_5s)] "job-running").
Proof.
  split.
  - apply (retrieve_jobs_cached_names 1000 "ns" "app"
             (λ _, JobList [job_5s; job_running]) initial
             {| JOB_CACHE := [("job-5s", job_5s)]; metrics := ∅ |}
             [job_5s] "job-5s"); [by vm_compute|].
    right. exists job_5s. split; [by left|]. split; [done|].
    split; [done | apply has_label_app_foo].
  - intros Hsome.
    apply (retrieve_jobs_cached_names 1000 "ns" "app"
             (λ _, JobList [job_5s; job_running]) initial
             {| JOB_CACHE := [("job-5s", job_5s)]; metrics := ∅ |}
             [job_5s] "job-running") in Hsome; [|by vm_compute].
    destruct Hsome as [[stored Hold]|(job & Hin & Hname & Hactive & _)];
      [done|].
    apply elem_of_cons in Hin as [->|Hin]; [done|].
    apply list_elem_of_singleton in Hin as ->. by apply Hactive.
Defined.
